(** * Feed synchronisation core of the policy engine

    A shallow embedding of
    [anchore_engine/services/policy_engine/engine/feeds/feeds.py]:
    the feed registry ([FeedMeta]), the generic sync engine
    ([AnchoreServiceFeed]) and the vulnerability specialisation
    ([VulnerabilityFeed]).

    Python code that touches the database session, the event client, the
    logger, the wall clock and the thread-local group-name cache is written
    in a state-and-exception monad [M] over an explicit [World].  Every
    definition carries the name of the Python function it embeds. *)

From stdpp Require Import gmap strings list fin_maps pretty.
From Stdlib Require Import ZArith Ascii String.

Set Default Proof Using "Type".
Open Scope string_scope.

(** ** Exceptions and results *)

(** The exception classes this module raises or lets through.  All of them
    derive from Python's [Exception], so [except Exception] catches each. *)
Inductive exn : Type :=
  | KeyError (key : string)
  | AttributeError (attr : string)
  | ValueError (msg : string)
  | TypeError (msg : string)
  | Exception (msg : string)
  | DBError (msg : string)
  | IOError (msg : string).

Inductive Res (A : Type) : Type :=
  | Ok (a : A)
  | Raise (e : exn).
Arguments Ok {A} a.
Arguments Raise {A} e.

Definition str_exn (e : exn) : string :=
  match e with
  | KeyError k => "'" ++ k ++ "'"
  | AttributeError a => "'NoneType' object has no attribute '" ++ a ++ "'"
  | ValueError m | TypeError m | Exception m | DBError m | IOError m => m
  end.

#[global] Instance exn_eq_dec : EqDecision exn.
Proof. solve_decision. Defined.

(** ** Strings: [str.lower] restricted to ASCII

    A [string] is the sequence of the bytes of a Python [str].  [lower] folds
    the letters [A]-[Z] and nothing else, which is what [str.lower] does on a
    string of ASCII characters; [str.lower] also folds letters outside ASCII,
    so statements that depend on how a name folds are made for ASCII names
    ([is_ascii]). *)

Definition lower_ascii (c : ascii) : ascii :=
  let n := nat_of_ascii c in
  if (65 <=? n)%nat && (n <=? 90)%nat then ascii_of_nat (n + 32) else c.

Fixpoint lower (s : string) : string :=
  match s with
  | EmptyString => EmptyString
  | String c s' => String (lower_ascii c) (lower s')
  end.

(** [s.isascii()] *)
Fixpoint is_ascii (s : string) : bool :=
  match s with
  | EmptyString => true
  | String c s' => (nat_of_ascii c <? 128)%nat && is_ascii s'
  end.

(** ** The feed registry ([FeedMeta]) *)

(** The classes defined in the module, in definition order. *)
Inductive FeedCls : Type :=
  | DataFeed
  | AnchoreServiceFeedCls
  | VulnerabilityFeedCls
  | PackagesFeedCls
  | NvdV2FeedCls
  | VulnDBFeedCls.

#[global] Instance FeedCls_eq_dec : EqDecision FeedCls.
Proof. solve_decision. Defined.

(** A Python [dict] keeps insertion order, and [get_feed_by_name] depends on
    it ([found[0]]), so the registry is an association list. *)
Definition Registry : Type := list (string * FeedCls).

(** [d.get(k)] *)
Fixpoint dict_get {V : Type} (d : list (string * V)) (k : string) : option V :=
  match d with
  | [] => None
  | (k', v) :: d' => if decide (k' = k) then Some v else dict_get d' k
  end.

(** [d[k] = v]: an existing key keeps its position, a new key goes last. *)
Fixpoint dict_set {V : Type} (d : list (string * V)) (k : string) (v : V)
  : list (string * V) :=
  match d with
  | [] => [(k, v)]
  | (k', v') :: d' =>
      if decide (k' = k) then (k', v) :: d' else (k', v') :: dict_set d' k v
  end.

Definition dict_keys {V : Type} (d : list (string * V)) : list string := d.*1.
Definition dict_values {V : Type} (d : list (string * V)) : list V := d.*2.

Module FeedMeta.

(** [FeedMeta.__init__(cls, name, bases, dct)].  [registry] is [None]
    while no class has the attribute; [feed_name_in_dct] is
    [dct.get('__feed_name__')] when the class body defines it. *)
Definition __init__ (registry : option Registry) (cls : FeedCls)
    (feed_name_in_dct : option string) : option Registry :=
  match registry with
  | None => Some []
  | Some reg =>
      match feed_name_in_dct with
      | Some n => Some (dict_set reg (lower n) cls)
      | None => Some reg
      end
  end.

(** [FeedMeta.get_feed_by_name(cls, name)] *)
Definition get_feed_by_name (registry : Registry) (name : string)
  : Res FeedCls :=
  let found := dict_get registry (lower name) in
  match found with
  | Some f => Ok f
  | None =>
      let found := dict_values registry in
      match found with
      | f :: _ => Ok f
      | [] => Raise (KeyError name)
      end
  end.

(** [FeedMeta.registered_feed_names(cls)] *)
Definition registered_feed_names (registry : Registry) : list string :=
  dict_keys registry.

End FeedMeta.

(** The class statements of the module, top to bottom, with the
    [__feed_name__] each class body assigns.  [DataFeed] assigns [None] but
    is the class that creates the registry; [AnchoreServiceFeed] assigns
    none. *)
Definition class_definitions : list (FeedCls * option string) :=
  [ (DataFeed, None);
    (AnchoreServiceFeedCls, None);
    (VulnerabilityFeedCls, Some "vulnerabilities");
    (PackagesFeedCls, Some "packages");
    (NvdV2FeedCls, Some "nvdv2");
    (VulnDBFeedCls, Some "vulndb") ].

Definition module_registry : Registry :=
  default []
    (foldl (fun reg cd => FeedMeta.__init__ reg cd.1 cd.2) None
       class_definitions).

(** [feed_instance_by_name] up to the constructor call: the class whose
    factory is invoked. *)
Definition feed_class_by_name (name : string) : Res FeedCls :=
  FeedMeta.get_feed_by_name module_registry name.

(** ** Data model *)

(** A [datetime.datetime]: the wall-clock reading in seconds and the
    [tzinfo] as an offset from UTC ([None] for a naive value). *)
Record datetime : Type := mk_datetime {
  dt_wall : Z;
  dt_tzinfo : option Z
}.

#[global] Instance datetime_eq_dec : EqDecision datetime.
Proof. solve_decision. Defined.

(** [datetime.timezone.utc] *)
Definition timezone_utc : Z := 0%Z.

(** [d.replace(tzinfo=tz)]: the wall-clock fields are kept as they are. *)
Definition replace_tzinfo (d : datetime) (tz : Z) : datetime :=
  {| dt_wall := dt_wall d; dt_tzinfo := Some tz |}.

(** [d.timestamp()] of an aware value, in seconds. *)
Definition timestamp (d : datetime) : Z :=
  (dt_wall d - default 0 (dt_tzinfo d))%Z.

(** Rows of [FixedArtifact]: the columns this module reads. *)
Record FixedArtifact : Type := mk_FixedArtifact {
  fix_name : string;
  fix_epochless_version : string;
  fix_version : string;
  fix_namespace_name : string
}.

#[global] Instance FixedArtifact_eq_dec : EqDecision FixedArtifact.
Proof. solve_decision. Defined.

(** Rows of [Vulnerability] with the [fixed_in] relationship loaded.
    [vuln_columns] stands for the remaining columns (severity, description,
    links, ...), which this module never reads. *)
Record Vulnerability : Type := mk_Vulnerability {
  vuln_id : string;
  vuln_namespace_name : string;
  vuln_fixed_in : list FixedArtifact;
  vuln_columns : string
}.

#[global] Instance Vulnerability_eq_dec : EqDecision Vulnerability.
Proof. solve_decision. Defined.

Record FeedGroupMetadata : Type := mk_FeedGroupMetadata {
  group_name : string;
  group_feed_name : string;
  group_last_sync : option datetime
}.

Record FeedMetadata : Type := mk_FeedMetadata {
  feed_name : string;
  feed_last_update : option datetime;
  feed_last_full_sync : option datetime;
  feed_groups : list FeedGroupMetadata
}.

(** What a mapper hands to [db.merge]: a vulnerability, or a row of one of
    the flat entity families ([GenericFeedDataRecord], [GemMetadata], ...)
    given by its table, namespace, key and payload. *)
Inductive Entity : Type :=
  | EVulnerability (v : Vulnerability)
  | ERecord (table namespace key payload : string).

Definition GenericFeedDataRecord : string := "GenericFeedDataRecord".
Definition NpmMetadata : string := "NpmMetadata".
Definition GemMetadata : string := "GemMetadata".
Definition CpeV2Vulnerability : string := "CpeV2Vulnerability".
Definition NvdV2Metadata : string := "NvdV2Metadata".
Definition VulnDBCpe : string := "VulnDBCpe".
Definition VulnDBMetadata : string := "VulnDBMetadata".

(** Image identifiers and the materialised image-to-vulnerability matches
    ([ImagePackageVulnerability]), as (image, vulnerability id, namespace). *)
Definition ImageMatches : Type := gset (string * string * string).

(** The state of the relational store. *)
Record Db : Type := mk_Db {
  feeds : gmap string FeedMetadata;
  vulnerabilities : gmap (string * string) Vulnerability;
  records : gmap (string * string * string) string;
  image_matches : ImageMatches
}.

(** The downloader's manifest and repository. *)
Record GroupDownloadResult : Type := mk_GroupDownloadResult {
  gdr_feed : string;
  gdr_group : string;
  gdr_started : datetime;
  gdr_total_records : nat
}.

Definition Raw : Type := string.

(** What [read(feed, group, 0)] iterates over: the records it yields and,
    when the iteration breaks off, the exception it then raises. *)
Record RecordStream : Type := mk_RecordStream {
  stream_items : list Raw;
  stream_failure : option exn
}.

Record LocalFeedDataRepo : Type := mk_LocalFeedDataRepo {
  download_results : list GroupDownloadResult;
  read : string -> string -> nat -> RecordStream
}.

(** Result dictionaries. *)
Record GroupSyncResult : Type := mk_GroupSyncResult {
  gr_group : option string;
  gr_status : string;
  gr_total_time_seconds : Z;
  gr_updated_record_count : nat;
  gr_updated_image_count : nat
}.

Record FeedSyncResult : Type := mk_FeedSyncResult {
  fr_feed : option string;
  fr_status : string;
  fr_total_time_seconds : Z;
  fr_groups : list GroupSyncResult
}.

(** [build_group_sync_result()] *)
Definition build_group_sync_result : GroupSyncResult :=
  {| gr_group := None; gr_status := "failure"; gr_total_time_seconds := 0%Z;
     gr_updated_record_count := 0; gr_updated_image_count := 0 |}.

(** [build_feed_sync_results()] *)
Definition build_feed_sync_results : FeedSyncResult :=
  {| fr_feed := None; fr_status := "failure"; fr_total_time_seconds := 0%Z;
     fr_groups := [] |}.

(** Events of [anchore_engine.subsys.events]. *)
Inductive Event : Type :=
  | FeedGroupSyncStarted (feed group : string)
  | FeedGroupSyncCompleted (feed group : string) (result : GroupSyncResult)
  | FeedGroupSyncFailed (feed group : string) (error : exn).

(** What [notify_event] did with an event. *)
Inductive Delivery : Type :=
  | Posted                  (* [client.add_event] returned *)
  | PostFailed (e : exn)    (* [client.add_event] raised, a warning was logged *)
  | Logged.                 (* no client: the event was logged *)

Inductive LogLevel : Type := DEBUG | INFO | WARN | ERROR | EXCEPTION.

Definition LogLine : Type := LogLevel * string.

(** ** The world a sync runs in *)

Record World : Type := mk_World {
  committed : Db;                      (* what the database durably holds *)
  session : Db;                        (* the thread-scoped session's view *)
  faults : list (option exn);          (* outcome of the next I/O calls *)
  clock : list Z;                      (* the next wall-clock readings *)
  events : list (Event * Delivery);    (* events given to [notify_event] *)
  logs : list LogLine;
  cache : gset string;                 (* [ThreadLocalFeedGroupNameCache] *)
  fn_calls : list Vulnerability        (* calls of [vulnerability_processing_fn] *)
}.

Definition set_committed (d : Db) (w : World) : World :=
  mk_World d (session w) (faults w) (clock w) (events w) (logs w) (cache w)
    (fn_calls w).
Definition set_session (d : Db) (w : World) : World :=
  mk_World (committed w) d (faults w) (clock w) (events w) (logs w) (cache w)
    (fn_calls w).
Definition set_faults (f : list (option exn)) (w : World) : World :=
  mk_World (committed w) (session w) f (clock w) (events w) (logs w) (cache w)
    (fn_calls w).
Definition set_clock (c : list Z) (w : World) : World :=
  mk_World (committed w) (session w) (faults w) c (events w) (logs w) (cache w)
    (fn_calls w).
Definition set_events (e : list (Event * Delivery)) (w : World) : World :=
  mk_World (committed w) (session w) (faults w) (clock w) e (logs w) (cache w)
    (fn_calls w).
Definition set_logs (l : list LogLine) (w : World) : World :=
  mk_World (committed w) (session w) (faults w) (clock w) (events w) l (cache w)
    (fn_calls w).
Definition set_cache (c : gset string) (w : World) : World :=
  mk_World (committed w) (session w) (faults w) (clock w) (events w) (logs w) c
    (fn_calls w).
Definition set_fn_calls (c : list Vulnerability) (w : World) : World :=
  mk_World (committed w) (session w) (faults w) (clock w) (events w) (logs w)
    (cache w) c.

Definition set_feeds (f : gmap string FeedMetadata) (d : Db) : Db :=
  mk_Db f (vulnerabilities d) (records d) (image_matches d).
Definition set_vulnerabilities (v : gmap (string * string) Vulnerability)
    (d : Db) : Db :=
  mk_Db (feeds d) v (records d) (image_matches d).
Definition set_records (r : gmap (string * string * string) string) (d : Db)
  : Db :=
  mk_Db (feeds d) (vulnerabilities d) r (image_matches d).
Definition set_image_matches (i : ImageMatches) (d : Db) : Db :=
  mk_Db (feeds d) (vulnerabilities d) (records d) i.

(** ** The monad: state passing with exceptions *)

Definition M (A : Type) : Type := World -> Res A * World.

Definition ret {A : Type} (a : A) : M A := fun w => (Ok a, w).

Definition raise {A : Type} (e : exn) : M A := fun w => (Raise e, w).

Definition bind {A B : Type} (m : M A) (k : A -> M B) : M B :=
  fun w =>
    match m w with
    | (Ok a, w') => k a w'
    | (Raise e, w') => (Raise e, w')
    end.

Notation "x <- m ;; k" := (bind m (fun x => k))
  (at level 100, m at next level, right associativity,
   format "'[v' x  <-  m  ;;  '/' k ']'").
Notation "m ;;; k" := (bind m (fun _ => k))
  (at level 100, right associativity,
   format "'[v' m  ;;;  '/' k ']'").

(** [try: m except Exception as e: h e] *)
Definition try_except {A : Type} (m : M A) (h : exn -> M A) : M A :=
  fun w =>
    match m w with
    | (Ok a, w') => (Ok a, w')
    | (Raise e, w') => h e w'
    end.

(** [try: m finally: f].  [f] runs on both exits and its value (the
    variables it assigns) is available afterwards; if [f] itself raises, that
    exception replaces the outcome of [m]. *)
Definition try_finally {A B : Type} (m : M A) (f : M B) : M (A * B) :=
  fun w =>
    match m w with
    | (r, w') =>
        match f w' with
        | (Ok b, w'') =>
            match r with
            | Ok a => (Ok (a, b), w'')
            | Raise e => (Raise e, w'')
            end
        | (Raise e, w'') => (Raise e, w'')
        end
    end.

Definition get_world : M World := fun w => (Ok w, w).
Definition modify (f : World -> World) : M unit := fun w => (Ok tt, f w).

(** Result and final world of a run. *)
Definition outcome {A : Type} (m : M A) (w : World) : Res A := (m w).1.
Definition final {A : Type} (m : M A) (w : World) : World := (m w).2.

(** ** Logging, clock, cache *)

(** [log.debug], [log.info], ... : one line appended to the log. *)
Definition log (lvl : LogLevel) (msg : string) : M unit :=
  modify (fun w => set_logs (logs w ++ [(lvl, msg)]) w).

(** ['{}'.format(x)] of a string or [None]. *)
Definition fmt (o : option string) : string := default "None" o.

(** [log_msg_ctx(operation_id, feed, group, msg)] *)
Definition log_msg_ctx (operation_id feed group : option string)
    (msg : string) : string :=
  msg ++ " (operation_id=" ++ fmt operation_id ++ ", feed=" ++ fmt feed
      ++ ", group=" ++ fmt group ++ ")".

(** [time.time()], in whole seconds: the next reading of the clock. *)
Definition time_time : M Z :=
  fun w =>
    match clock w with
    | t :: c => (Ok t, set_clock c w)
    | [] => (Ok 0%Z, w)
    end.

(** [datetime.datetime.utcnow()] *)
Definition utcnow : M datetime :=
  t <- time_time ;; ret (mk_datetime t None).

(** Modelled from the spec: [ThreadLocalFeedGroupNameCache], which is defined
    in [engine/vulnerabilities.py]; the spec gives it the methods
    [add(names)], which publishes the names, and [flush()], which clears
    the cache. *)
Module ThreadLocalFeedGroupNameCache.
Definition add (names : list string) : M unit :=
  modify (fun w => set_cache (cache w ∪ list_to_set names) w).
Definition flush : M unit :=
  modify (set_cache ∅).
End ThreadLocalFeedGroupNameCache.

(** ** The database session

    [get_session()] returns the thread-scoped session, so every [db] of the
    module is the same session: [session w] is what it sees, [committed w]
    what is durable.  Calls that go to the database ([refresh], [merge],
    [query], [delete], [flush], [commit]) and to the catalog take their
    outcome from [faults]: the head of the schedule says whether the next
    such call raises, and an exhausted schedule means no more failures.
    [rollback], [add] and attribute reads stay in memory and do not raise. *)

(** One call that performs I/O: it raises if the schedule says so. *)
Definition io : M unit :=
  fun w =>
    match faults w with
    | Some e :: f => (Raise e, set_faults f w)
    | None :: f => (Ok tt, set_faults f w)
    | [] => (Ok tt, w)
    end.

Definition modify_session (f : Db -> Db) : M unit :=
  modify (fun w => set_session (f (session w)) w).

(** [db.refresh(self.metadata)]: reload the feed row, with its groups.  The
    row is read inside the session's transaction, that is, as the session
    sees it: changes the session has not committed survive the refresh, and
    the next commit makes them durable. *)
Definition db_refresh (metadata : option string) : M unit :=
  match metadata with
  | None => raise (Exception "Class 'builtins.NoneType' is not mapped")
  | Some k =>
      io ;;;
      w <- get_world ;;
      match feeds (session w) !! k with
      | Some row => ret tt
      | None => raise (DBError "Could not refresh instance")
      end
  end.

Definition upsert (e : Entity) (d : Db) : Db :=
  match e with
  | EVulnerability v =>
      set_vulnerabilities
        (<[(vuln_namespace_name v, vuln_id v) := v]> (vulnerabilities d)) d
  | ERecord t ns k p => set_records (<[(t, ns, k) := p]> (records d)) d
  end.

(** [db.merge(obj)] *)
Definition db_merge (e : Entity) : M Entity :=
  io ;;; modify_session (upsert e) ;;; ret e.

(** [db.commit()] *)
Definition db_commit : M unit :=
  io ;;; modify (fun w => set_committed (session w) w).

(** [db.rollback()] *)
Definition db_rollback : M unit :=
  modify (fun w => set_session (committed w) w).

(** [db.flush()] *)
Definition db_flush : M unit := io.

(** [db.add(obj)] for an object the session already holds. *)
Definition db_add : M unit := ret tt.

(** [db.query(Vulnerability).filter(id == .., namespace_name == ..).one_or_none()] *)
Definition query_vulnerability (id ns : string) : M (option Vulnerability) :=
  io ;;; w <- get_world ;; ret (vulnerabilities (session w) !! (ns, id)).

(** [db.query(T).delete()] for a flat entity family [T]; returns the count. *)
Definition delete_records (table : string) : M nat :=
  io ;;;
  w <- get_world ;;
  let keep := filter (fun kv => kv.1.1.1 ≠ table) (records (session w)) in
  modify_session (set_records keep) ;;;
  ret (size (records (session w)) - size keep).

(** [db.query(FixedArtifact).filter(namespace_name == ns).delete()] *)
Definition delete_fixed_artifacts (ns : string) : M nat :=
  io ;;;
  w <- get_world ;;
  let strip (v : Vulnerability) :=
    mk_Vulnerability (vuln_id v) (vuln_namespace_name v)
      (filter (fun f => fix_namespace_name f ≠ ns) (vuln_fixed_in v))
      (vuln_columns v) in
  let count (v : Vulnerability) :=
    List.length (filter (fun f => fix_namespace_name f = ns) (vuln_fixed_in v)) in
  modify_session (fun d => set_vulnerabilities (strip <$> vulnerabilities d) d) ;;;
  ret (sum_list (count <$> (map_to_list (vulnerabilities (session w))).*2)).

(** [db.query(Vulnerability).filter(namespace_name == ns).delete()] *)
Definition delete_vulnerabilities (ns : string) : M nat :=
  io ;;;
  w <- get_world ;;
  let keep :=
    filter (fun kv => vuln_namespace_name kv.2 ≠ ns)
      (vulnerabilities (session w)) in
  modify_session (set_vulnerabilities keep) ;;;
  ret (size (vulnerabilities (session w)) - size keep).

(** [db.query(T).filter(T.namespace_name == ns).delete()] for a flat entity
    family [T]; returns the count. *)
Definition delete_records_in (table ns : string) : M nat :=
  io ;;;
  w <- get_world ;;
  let keep :=
    filter (fun kv => ~ (kv.1.1.1 = table /\ kv.1.1.2 = ns))
      (records (session w)) in
  modify_session (set_records keep) ;;;
  ret (size (records (session w)) - size keep).

(** [db.query(T).count()] *)
Definition count_records (table : string) : M nat :=
  io ;;;
  w <- get_world ;;
  ret (size (filter (fun kv => kv.1.1.1 = table) (records (session w)))).

(** [db.query(T).filter(T.namespace_name == ns).count()] *)
Definition count_records_in (table ns : string) : M nat :=
  io ;;;
  w <- get_world ;;
  ret (size (filter (fun kv => kv.1.1.1 = table /\ kv.1.1.2 = ns)
               (records (session w)))).

(** [db.query(Vulnerability).filter(namespace_name == ns).count()] *)
Definition count_vulnerabilities (ns : string) : M nat :=
  io ;;;
  w <- get_world ;;
  ret (size (filter (fun kv => vuln_namespace_name kv.2 = ns)
               (vulnerabilities (session w)))).

(** ** External collaborators *)

(** [flush_vulnerability_matches] and [process_updated_vulnerability] live in
    [engine/vulnerabilities.py].  They receive the session, must not commit
    or roll back, and maintain the image matches; each returns its outcome
    and the matches it leaves. *)
Definition FlushHelperFn : Type :=
  Db -> string -> string -> Res unit * ImageMatches.
Definition VulnProcessingFn : Type :=
  Db -> Vulnerability -> Res (list string) * ImageMatches.

Definition call_flush_helper (fn : FlushHelperFn) (feed_name group_name : string)
  : M unit :=
  fun w =>
    let '(r, im) := fn (session w) feed_name group_name in
    (r, set_session (set_image_matches im (session w)) w).

(** [self.__flush_helper_fn__(db=db, feed_name=.., group_name=..)].  The
    helper is a plain function kept as a class attribute, so reading it
    through [self] gives a bound method: the call passes [self] for the
    first parameter, [db], and [db] once more by keyword, and Python raises
    [TypeError] before the helper runs. *)
Definition call_flush_helper_of_self (fn : FlushHelperFn)
    (feed_name group_name : string) : M unit :=
  raise (TypeError "got multiple values for argument 'db'").

Definition call_processing_fn (fn : VulnProcessingFn) (merged : Vulnerability)
  : M (list string) :=
  fun w =>
    let '(r, im) := fn (session w) merged in
    (r, set_fn_calls (fn_calls w ++ [merged])
          (set_session (set_image_matches im (session w)) w)).

(** [mapper.map(record)] and the two shapes of [__group_data_mappers__]. *)
Definition Mapper (T : Type) : Type := Raw -> Res T.

Inductive MapperRef (T : Type) : Type :=
  | MapperClass (new : option string -> string -> Mapper T)
  | MapperInstance (m : Mapper T).
Arguments MapperClass {T} new.
Arguments MapperInstance {T} m.

Inductive GroupDataMappers (T : Type) : Type :=
  | NoMappers                                             (* [None] *)
  | SingleMapper (r : MapperRef T)                        (* no [get] *)
  | MappersWithGet (get : string -> option (MapperRef T)) (* dict, factory *).
Arguments NoMappers {T}.
Arguments SingleMapper {T} r.
Arguments MappersWithGet {T} get.

(** The catalog client; [add_event] is a remote call. *)
Inductive CatalogClient : Type := catalog_client.

(** [event.to_json()], as far as the log line needs it. *)
Definition event_to_json (ev : Event) : string :=
  match ev with
  | FeedGroupSyncStarted f g =>
      "{type: feed_group_sync_start, feed: " ++ f ++ ", group: " ++ g ++ "}"
  | FeedGroupSyncCompleted f g r =>
      "{type: feed_group_sync_complete, feed: " ++ f ++ ", group: " ++ g
        ++ ", status: " ++ gr_status r ++ "}"
  | FeedGroupSyncFailed f g e =>
      "{type: feed_group_sync_fail, feed: " ++ f ++ ", group: " ++ g
        ++ ", error: " ++ str_exn e ++ "}"
  end.

Definition record_event (ev : Event) (d : Delivery) : M unit :=
  modify (fun w => set_events (events w ++ [(ev, d)]) w).

(** [client.add_event(event)] *)
Definition add_event (client : CatalogClient) (ev : Event) : M unit :=
  io ;;; record_event ev Posted.

(** [notify_event(event, client)] *)
Definition notify_event (ev : Event) (client : option CatalogClient) : M unit :=
  match client with
  | Some c =>
      try_except (add_event c ev)
        (fun e =>
           record_event ev (PostFailed e) ;;;
           log WARN ("Error adding feed start event: " ++ str_exn e))
  | None =>
      record_event ev Logged ;;;
      log INFO ("Event: " ++ event_to_json ev)
  end.

(** ** Feed objects *)

(** An instance of a feed class: the class attributes it reads through
    [self] and [self.metadata], the handle (feed name) of the [FeedMetadata]
    row the object holds, [None] when it holds none. *)
Record Feed (T : Type) : Type := mk_Feed {
  __feed_name__ : option string;
  __group_data_mappers__ : GroupDataMappers T;
  __flush_helper_fn__ : option FlushHelperFn;
  metadata : option string
}.
Arguments mk_Feed {T} _ _ _ _.
Arguments __feed_name__ {T} _.
Arguments __group_data_mappers__ {T} _.
Arguments __flush_helper_fn__ {T} _.
Arguments metadata {T} _.

(** [self.metadata.groups], read through the session. *)
Definition metadata_groups (md : option string) (w : World)
  : list FeedGroupMetadata :=
  match md with
  | Some k =>
      match feeds (session w) !! k with
      | Some row => feed_groups row
      | None => []
      end
  | None => []
  end.

(** [group_db_obj.last_sync = t], for the object [group_by_name] returned:
    the first group of that name. *)
Fixpoint set_first_last_sync (gs : list FeedGroupMetadata) (name : string)
    (t : datetime) : list FeedGroupMetadata :=
  match gs with
  | [] => []
  | g :: gs' =>
      if decide (group_name g = name)
      then mk_FeedGroupMetadata (group_name g) (group_feed_name g) (Some t) :: gs'
      else g :: set_first_last_sync gs' name t
  end.

Definition assign_last_sync (md : option string) (name : string) (t : datetime)
  : M unit :=
  match md with
  | Some k =>
      modify_session (fun d =>
        set_feeds
          (alter (fun row =>
                    mk_FeedMetadata (feed_name row) (feed_last_update row)
                      (feed_last_full_sync row)
                      (set_first_last_sync (feed_groups row) name t))
                 k (feeds d)) d)
  | None => ret tt
  end.

(** [self.metadata.last_update = t; self.metadata.last_full_sync = t] *)
Definition assign_feed_timestamps (md : option string) (t : datetime) : M unit :=
  match md with
  | Some k =>
      modify_session (fun d =>
        set_feeds
          (alter (fun row =>
                    mk_FeedMetadata (feed_name row) (Some t) (Some t)
                      (feed_groups row))
                 k (feeds d)) d)
  | None => ret tt
  end.

(** [str(d)] of an aware datetime, as far as the log line needs it. *)
Definition str_datetime (d : datetime) : string :=
  pretty (dt_wall d) ++ "+" ++ pretty (default 0%Z (dt_tzinfo d)).

Definition with_group (r : GroupSyncResult) (g : string) : GroupSyncResult :=
  mk_GroupSyncResult (Some g) (gr_status r) (gr_total_time_seconds r)
    (gr_updated_record_count r) (gr_updated_image_count r).

Definition RECORDS_PER_CHUNK : nat := 500.

(** ** [class AnchoreServiceFeed] *)

Module AnchoreServiceFeed.

(** [group_by_name(self, group_name)] *)
Definition group_by_name {T : Type} (self : Feed T) (name : string)
  : M (option FeedGroupMetadata) :=
  w <- get_world ;;
  let found :=
    filter (fun x => group_name x = name) (metadata_groups (metadata self) w) in
  (if (1 <? List.length found)%nat
   then log WARN ("Found more than one group with name " ++ name
                    ++ " for feed " ++ fmt (__feed_name__ self)
                    ++ " in metadata db, not expected.")
   else ret tt) ;;;
  ret (head found).

(** [_load_mapper(self, group_obj)] *)
Definition _load_mapper {T : Type} (self : Feed T)
    (group_obj : FeedGroupMetadata) : M (Mapper T) :=
  let mapper :=
    match __group_data_mappers__ self with
    | MappersWithGet get => get (group_name group_obj)
    | SingleMapper r => Some r
    | NoMappers => None
    end in
  match mapper with
  | None =>
      raise (Exception ("No mapper class found for group: "
                          ++ group_name group_obj))
  | Some (MapperClass new) =>
      ret (new (__feed_name__ self) (group_name group_obj))
  | Some (MapperInstance m) => ret m
  end.

(** [_flush_group(self, group_obj, operation_id)] *)
Definition _flush_group {T : Type} (self : Feed T)
    (group_obj : FeedGroupMetadata) (operation_id : option string) : M unit :=
  log INFO (log_msg_ctx operation_id (Some (group_name group_obj))
              (Some (group_feed_name group_obj)) "Flushing group records") ;;;
  match __flush_helper_fn__ self with
  | Some fn =>
      call_flush_helper_of_self fn (group_feed_name group_obj)
        (group_name group_obj)
  | None => ret tt
  end ;;;
  _ <- delete_records GenericFeedDataRecord ;;
  ret tt.

(** The [for record in local_repo.read(...)] loop of [_sync_group], without
    its [else] clause: returns [total_updated_count] and [count]. *)
Fixpoint merge_records (mapper : Mapper Entity) (ctx : string -> string)
    (total_records : nat) (items : list Raw)
    (total_updated_count count : nat) : M (nat * nat) :=
  match items with
  | [] => ret (total_updated_count, count)
  | record :: rest =>
      mapped <- (fun w => (mapper record, w)) ;;
      _ <- db_merge mapped ;;
      let total_updated_count := S total_updated_count in
      let count := S count in
      count <-
        (if (RECORDS_PER_CHUNK <=? count)%nat
         then
           db_commit ;;;
           log INFO (ctx ("DB Update Progress: " ++ pretty total_updated_count
                            ++ "/" ++ pretty total_records)) ;;;
           ret 0%nat
         else ret count) ;;
      merge_records mapper ctx total_records rest total_updated_count count
  end.

(** [_sync_group(self, group_download_result, full_flush, local_repo,
    operation_id)].  [flush_group] is [self._flush_group], which subclasses
    override. *)
Definition _sync_group
    (flush_group : FeedGroupMetadata -> option string -> M unit)
    (self : Feed Entity) (group_download_result : GroupDownloadResult)
    (full_flush : bool) (local_repo : LocalFeedDataRepo)
    (operation_id : option string) : M GroupSyncResult :=
  let gdr := group_download_result in
  let ctx := log_msg_ctx operation_id (Some (gdr_feed gdr))
               (Some (gdr_group gdr)) in
  let result := with_group build_group_sync_result (gdr_group gdr) in
  group_db_obj <-
    (match metadata self with
     | Some _ =>
         db_refresh (metadata self) ;;;
         group_by_name self (gdr_group gdr)
     | None => ret None
     end) ;;
  match group_db_obj with
  | None =>
      log ERROR (ctx "Skipping sync for feed group {}, not found in db, record should have been synced already") ;;;
      ret result
  | Some group_db_obj =>
      let download_started := replace_tzinfo (gdr_started gdr) timezone_utc in
      sync_started <- time_time ;;
      r <-
        try_finally
          (try_except
             ((if full_flush
               then
                 log INFO (ctx "Performing data flush prior to sync as requested") ;;;
                 flush_group group_db_obj operation_id
               else ret tt) ;;;
              mapper <- _load_mapper self group_db_obj ;;
              log INFO (ctx ("Syncing " ++ pretty (gdr_total_records gdr)
                               ++ " total update records into db in sets of "
                               ++ pretty RECORDS_PER_CHUNK)) ;;;
              let stream := read local_repo (gdr_feed gdr) (gdr_group gdr) 0 in
              tc <- merge_records mapper ctx (gdr_total_records gdr)
                      (stream_items stream) 0 0 ;;
              match stream_failure stream with
              | Some e => raise e
              | None =>
                  db_commit ;;;
                  log INFO (ctx ("DB Update Progress: " ++ pretty tc.1 ++ "/"
                                   ++ pretty (gdr_total_records gdr)))
              end ;;;
              log DEBUG (ctx ("Updating last sync timestamp to "
                                ++ str_datetime download_started)) ;;;
              group_db_obj <- group_by_name self (gdr_group gdr) ;;
              match group_db_obj with
              | Some _ =>
                  assign_last_sync (metadata self) (gdr_group gdr)
                    download_started
              | None => raise (AttributeError "last_sync")
              end ;;;
              db_add ;;;
              db_commit ;;;
              ret tc.1)
             (fun e =>
                log EXCEPTION (ctx "Error syncing") ;;;
                db_rollback ;;;
                raise e))
          (t1 <- time_time ;;
           let sync_time := (t1 - sync_started)%Z in
           t2 <- time_time ;;
           let total_group_time := (t2 - timestamp download_started)%Z in
           log INFO (ctx ("Sync to db duration: " ++ pretty sync_time ++ " sec")) ;;;
           log INFO (ctx ("Total sync, including download, duration: "
                            ++ pretty total_group_time ++ " sec")) ;;;
           ret total_group_time) ;;
      let total_updated_count := r.1 in
      let total_group_time := r.2 in
      ret (mk_GroupSyncResult (gr_group result) "success" total_group_time
             total_updated_count 0)
  end.

(** [_update_last_full_sync_timestamp(self)] *)
Definition _update_last_full_sync_timestamp {T : Type} (self : Feed T)
  : M unit :=
  try_except
    (match metadata self with
     | Some _ => db_refresh (metadata self)
     | None => raise (ValueError "metadata object not found")
     end ;;;
     now <- utcnow ;;
     assign_feed_timestamps (metadata self) now ;;;
     db_commit)
    (fun e =>
       log EXCEPTION "Failed updating feed metadata timestamps." ;;;
       db_rollback ;;;
       raise e).

(** The [for group_download_result in filter(...)] loop of [sync]: carries
    [result['groups']] and [failed_count]. *)
Fixpoint sync_groups
    (sync_group : GroupDownloadResult -> bool -> LocalFeedDataRepo ->
                  option string -> M GroupSyncResult)
    (fetched_data : LocalFeedDataRepo) (full_flush : bool)
    (event_client : option CatalogClient) (operation_id : option string)
    (todo : list GroupDownloadResult)
    (groups : list GroupSyncResult) (failed_count : nat)
  : M (list GroupSyncResult * nat) :=
  match todo with
  | [] => ret (groups, failed_count)
  | gdr :: rest =>
      let ctx := log_msg_ctx operation_id (Some (gdr_feed gdr))
                   (Some (gdr_group gdr)) in
      log INFO (ctx "Processing group for db update") ;;;
      notify_event (FeedGroupSyncStarted (gdr_feed gdr) (gdr_group gdr))
        event_client ;;;
      st <-
        try_except
          (new_data <- sync_group gdr full_flush fetched_data None ;;
           notify_event
             (FeedGroupSyncCompleted (gdr_feed gdr) (gdr_group gdr) new_data)
             event_client ;;;
           ret ((groups ++ [new_data])%list, failed_count))
          (fun e =>
             log EXCEPTION (ctx "Failed syncing group data") ;;;
             notify_event
               (FeedGroupSyncFailed (gdr_feed gdr) (gdr_group gdr) e)
               event_client ;;;
             ret (groups, S failed_count)) ;;
      sync_groups sync_group fetched_data full_flush event_client operation_id
        rest st.1 st.2
  end.

(** The groups of the manifest [sync] iterates over. *)
Definition fetched_groups {T : Type} (self : Feed T)
    (fetched_data : LocalFeedDataRepo) : list GroupDownloadResult :=
  filter (fun x => Some (gdr_feed x) = __feed_name__ self)
    (download_results fetched_data).

(** [sync(self, fetched_data, full_flush, event_client, operation_id)].
    [sync_group] is [self._sync_group], which subclasses override. *)
Definition sync {T : Type}
    (sync_group : GroupDownloadResult -> bool -> LocalFeedDataRepo ->
                  option string -> M GroupSyncResult)
    (self : Feed T) (fetched_data : LocalFeedDataRepo) (full_flush : bool)
    (event_client : option CatalogClient) (operation_id : option string)
  : M FeedSyncResult :=
  let result := build_feed_sync_results in
  t <- time_time ;;
  log INFO (log_msg_ctx operation_id (__feed_name__ self) None
              "Starting feed sync") ;;;
  st <- sync_groups sync_group fetched_data full_flush event_client
          operation_id (fetched_groups self fetched_data)
          (fr_groups result) 0 ;;
  t' <- time_time ;;
  let sync_time := (t' - t)%Z in
  _update_last_full_sync_timestamp self ;;;
  ret (mk_FeedSyncResult (__feed_name__ self)
         (if (st.2 =? 0)%nat then "success" else fr_status result)
         sync_time st.1).

End AnchoreServiceFeed.

(** ** [class VulnerabilityFeed] *)

Module VulnerabilityFeed.

(** [obj.attr]: an [AttributeError] when [obj] is [None]. *)
Definition getattr {A : Type} (obj : option Vulnerability) (attr : string)
    (field : Vulnerability -> A) : M A :=
  match obj with
  | Some v => ret (field v)
  | None => raise (AttributeError attr)
  end.

(** [{(fix.name, fix.epochless_version, fix.version) for fix in fixed_in}] *)
Definition normalized_fixes (fixed_in : list FixedArtifact)
  : gset (string * string * string) :=
  list_to_set
    ((fun f => (fix_name f, fix_epochless_version f, fix_version f))
       <$> fixed_in).

(** [a.symmetric_difference(b)] *)
Definition symmetric_difference (a b : gset (string * string * string))
  : gset (string * string * string) :=
  (a ∖ b) ∪ (b ∖ a).

(** [_are_match_equivalent(vulnerability_a, vulnerability_b)].  The first
    condition is Python's short-circuit [not (a and b) or a.id != b.id or
    a.namespace_name != b.namespace_name]; the arguments of the debug line
    are evaluated before [log.debug] is called. *)
Definition _are_match_equivalent (vulnerability_a vulnerability_b : option Vulnerability)
  : M bool :=
  let not_same_item :=
    match vulnerability_a, vulnerability_b with
    | Some a, Some b =>
        bool_decide (vuln_id a ≠ vuln_id b)
        || bool_decide (vuln_namespace_name a ≠ vuln_namespace_name b)
    | _, _ => true
    end in
  if not_same_item then
    a_id <- getattr vulnerability_a "id" vuln_id ;;
    b_id <- getattr vulnerability_b "id" vuln_id ;;
    a_ns <- getattr vulnerability_a "namespace_name" vuln_namespace_name ;;
    b_ns <- getattr vulnerability_b "namespace_name" vuln_namespace_name ;;
    log DEBUG ("Vuln id or namespaces are different: " ++ a_id ++ " " ++ b_id
                 ++ " " ++ a_ns ++ " " ++ b_ns) ;;;
    ret false
  else
    fixed_in_a <- getattr vulnerability_a "fixed_in" vuln_fixed_in ;;
    fixed_in_b <- getattr vulnerability_b "fixed_in" vuln_fixed_in ;;
    let normalized_fixes_a := normalized_fixes fixed_in_a in
    let normalized_fixes_b := normalized_fixes fixed_in_b in
    let fix_diff := symmetric_difference normalized_fixes_a normalized_fixes_b in
    if decide (fix_diff ≠ ∅) then
      log DEBUG ("Fixed In records diff: " ++ pretty (size fix_diff)) ;;;
      ret false
    else ret true.

(** [repr] of a vulnerability row, as far as the log lines need it. *)
Definition repr (v : Vulnerability) : string :=
  "<Vulnerability " ++ vuln_namespace_name v ++ "/" ++ vuln_id v ++ ">".

(** [update_vulnerability(self, db, vulnerability_record,
    vulnerability_processing_fn)] *)
Definition update_vulnerability (vulnerability_record : Vulnerability)
    (vulnerability_processing_fn : option VulnProcessingFn)
  : M (list string) :=
  try_except
    (let updates : list string := [] in
     existing <-
       try_except
         (query_vulnerability (vuln_id vulnerability_record)
            (vuln_namespace_name vulnerability_record))
         (fun _ =>
            log DEBUG ("No current record found for "
                         ++ repr vulnerability_record) ;;;
            ret None) ;;
     needs_update <-
       match existing with
       | Some ex =>
           eq <- _are_match_equivalent existing (Some vulnerability_record) ;;
           let needs_update := negb eq in
           (if needs_update
            then log DEBUG ("Found update that requires an image match update from "
                              ++ repr ex ++ " to " ++ repr vulnerability_record)
            else ret tt) ;;;
           ret needs_update
       | None => ret true
       end ;;
     _ <- db_merge (EVulnerability vulnerability_record) ;;
     let merged := vulnerability_record in
     match vulnerability_processing_fn with
     | Some fn =>
         if needs_update then call_processing_fn fn merged
         else
           log DEBUG ("Skipping image processing due to no diff: "
                        ++ repr merged) ;;;
           ret updates
     | None =>
         log DEBUG ("Skipping image processing due to no diff: "
                      ++ repr merged) ;;;
         ret updates
     end)
    (fun e =>
       log EXCEPTION "Error in vulnerability processing" ;;;
       raise e).

(** [_flush_group(self, group_obj, operation_id)] *)
Definition _flush_group (self : Feed Vulnerability)
    (group_obj : FeedGroupMetadata) (operation_id : option string) : M unit :=
  let ctx := log_msg_ctx operation_id (Some (group_name group_obj))
               (Some (group_feed_name group_obj)) in
  log INFO (ctx "Flushing group records") ;;;
  match __flush_helper_fn__ self with
  | Some fn =>
      call_flush_helper_of_self fn (group_feed_name group_obj)
        (group_name group_obj)
  | None => raise (TypeError "'NoneType' object is not callable")
  end ;;;
  count <- delete_fixed_artifacts (group_name group_obj) ;;
  log INFO (ctx ("Flushed " ++ pretty count ++ " fix records")) ;;;
  count <- delete_vulnerabilities (group_name group_obj) ;;
  log INFO (ctx ("Flushed " ++ pretty count ++ " vulnerability records")) ;;;
  db_flush.

(** The [for record in local_repo.read(...)] loop of [_sync_group], without
    its [else] clause: returns [updated_images], [total_updated_count] and
    [count]. *)
Fixpoint update_records (vuln_processing_fn : option VulnProcessingFn)
    (mapper : Mapper Vulnerability) (ctx : string -> string)
    (total_records : nat) (items : list Raw) (updated_images : gset string)
    (total_updated_count count : nat) : M (gset string * nat * nat) :=
  match items with
  | [] => ret (updated_images, total_updated_count, count)
  | record :: rest =>
      mapped <- (fun w => (mapper record, w)) ;;
      updated_image_ids <- update_vulnerability mapped vuln_processing_fn ;;
      let updated_images := updated_images ∪ list_to_set updated_image_ids in
      _ <- db_merge (EVulnerability mapped) ;;
      let total_updated_count := S total_updated_count in
      let count := S count in
      (if (0 <? List.length updated_image_ids)%nat then db_flush else ret tt) ;;;
      count <-
        (if (RECORDS_PER_CHUNK <=? count)%nat
         then
           db_commit ;;;
           log INFO (ctx ("DB Update Progress: " ++ pretty total_updated_count
                            ++ "/" ++ pretty total_records)) ;;;
           ret 0%nat
         else ret count) ;;
      update_records vuln_processing_fn mapper ctx total_records rest
        updated_images total_updated_count count
  end.

(** [_sync_group(self, group_download_result, full_flush, local_repo,
    operation_id)].  [vuln_processing_fn] is the class attribute
    [VulnerabilityFeed.__vuln_processing_fn__]. *)
Definition _sync_group (vuln_processing_fn : option VulnProcessingFn)
    (self : Feed Vulnerability) (group_download_result : GroupDownloadResult)
    (full_flush : bool) (local_repo : LocalFeedDataRepo)
    (operation_id : option string) : M GroupSyncResult :=
  let gdr := group_download_result in
  let ctx := log_msg_ctx operation_id (Some (gdr_feed gdr))
               (Some (gdr_group gdr)) in
  let result := with_group build_group_sync_result (gdr_group gdr) in
  db_refresh (metadata self) ;;;
  group_db_obj <- AnchoreServiceFeed.group_by_name self (gdr_group gdr) ;;
  match group_db_obj with
  | None =>
      log ERROR (ctx "Skipping group sync. Record not found in db, should have been synced already") ;;;
      ret result
  | Some group_db_obj =>
      sync_started <- time_time ;;
      let download_started := replace_tzinfo (gdr_started gdr) timezone_utc in
      r <-
        try_finally
          (try_except
             (let updated_images : gset string := ∅ in
              (if full_flush
               then
                 log INFO (ctx "Performing group data flush prior to sync") ;;;
                 _flush_group self group_db_obj operation_id
               else ret tt) ;;;
              mapper <- AnchoreServiceFeed._load_mapper self group_db_obj ;;
              let stream := read local_repo (gdr_feed gdr) (gdr_group gdr) 0 in
              st <- update_records vuln_processing_fn mapper ctx
                      (gdr_total_records gdr) (stream_items stream)
                      updated_images 0 0 ;;
              let total_updated_count := st.1.2 in
              match stream_failure stream with
              | Some e => raise e
              | None =>
                  db_commit ;;;
                  log INFO (ctx ("DB Update Progress: "
                                   ++ pretty total_updated_count ++ "/"
                                   ++ pretty (gdr_total_records gdr)))
              end ;;;
              log DEBUG (ctx ("Updating last sync timestamp to "
                                ++ str_datetime download_started)) ;;;
              group_db_obj <- AnchoreServiceFeed.group_by_name self (gdr_group gdr) ;;
              match group_db_obj with
              | Some _ =>
                  assign_last_sync (metadata self) (gdr_group gdr)
                    download_started
              | None => raise (AttributeError "last_sync")
              end ;;;
              db_add ;;;
              db_commit ;;;
              ret total_updated_count)
             (fun e =>
                log EXCEPTION (ctx "Error syncing group") ;;;
                db_rollback ;;;
                raise e))
          (t1 <- time_time ;;
           let total_group_time := (t1 - timestamp download_started)%Z in
           t2 <- time_time ;;
           let sync_time := (t2 - sync_started)%Z in
           log INFO (ctx ("Sync to db duration: " ++ pretty sync_time ++ " sec")) ;;;
           log INFO (ctx ("Total sync, including download, duration: "
                            ++ pretty total_group_time ++ " sec")) ;;;
           ret total_group_time) ;;
      let total_updated_count := r.1 in
      let total_group_time := r.2 in
      ret (mk_GroupSyncResult (gr_group result) "success" total_group_time
             total_updated_count 0)
  end.

(** [sync(self, fetched_data, full_flush, event_client, operation_id)]:
    [super().sync(fetched_data, full_flush, event_client)] leaves the
    [operation_id] of the generic sync at its default. *)
Definition sync (vuln_processing_fn : option VulnProcessingFn)
    (self : Feed Vulnerability) (fetched_data : LocalFeedDataRepo)
    (full_flush : bool) (event_client : option CatalogClient)
    (operation_id : option string) : M FeedSyncResult :=
  w <- get_world ;;
  let groups := metadata_groups (metadata self) w in
  match metadata self, groups with
  | Some _, _ :: _ =>
      ThreadLocalFeedGroupNameCache.add (group_name <$> groups)
  | _, _ => ThreadLocalFeedGroupNameCache.flush
  end ;;;
  r <-
    try_finally
      (AnchoreServiceFeed.sync (_sync_group vuln_processing_fn self) self
         fetched_data full_flush event_client None)
      ThreadLocalFeedGroupNameCache.flush ;;
  ret r.1.

(** [record_count(self, group_name)] *)
Definition record_count (self : Feed Vulnerability) (group_name : string)
  : M nat :=
  r <-
    try_finally
      (try_except (count_vulnerabilities group_name)
         (fun e =>
            log EXCEPTION ("Error getting feed data group record count in package feed for group: "
                             ++ group_name) ;;;
            raise e))
      db_rollback ;;
  ret r.1.

End VulnerabilityFeed.

(** ** [class PackagesFeed] *)

Module PackagesFeed.

(** [record_count(self, group_name)] *)
Definition record_count (self : Feed Entity) (group_name : string) : M nat :=
  r <-
    try_finally
      (try_except
         (if decide (group_name = "npm") then count_records NpmMetadata
          else if decide (group_name = "gem") then count_records GemMetadata
          else ret 0%nat)
         (fun e =>
            log EXCEPTION ("Error getting feed data group record count in package feed for group: "
                             ++ group_name) ;;;
            raise e))
      db_rollback ;;
  ret r.1.

(** [_flush_group(self, group_obj, flush_helper_fn, operation_id)] *)
Definition _flush_group (self : Feed Entity) (group_obj : FeedGroupMetadata)
    (flush_helper_fn : option FlushHelperFn) (operation_id : option string)
  : M unit :=
  let ctx := log_msg_ctx operation_id (Some (group_name group_obj))
               (Some (group_feed_name group_obj)) in
  match flush_helper_fn with
  | Some fn =>
      call_flush_helper fn (group_feed_name group_obj) (group_name group_obj)
  | None => ret tt
  end ;;;
  let ent_cls :=
    if decide (group_name group_obj = "npm") then Some NpmMetadata
    else if decide (group_name group_obj = "gem") then Some GemMetadata
    else None in
  match ent_cls with
  | None =>
      log INFO (ctx ("Unknown group name " ++ group_name group_obj
                       ++ ". Nothing to flush"))
  | Some ent_cls =>
      count <- delete_records ent_cls ;;
      log INFO (ctx ("Flushed " ++ pretty count ++ " records")) ;;;
      db_flush
  end.

End PackagesFeed.

(** ** [class NvdV2Feed] *)

Module NvdV2Feed.

(** [_flush_group(self, group_obj, flush_helper_fn, operation_id)] *)
Definition _flush_group (self : Feed Entity) (group_obj : FeedGroupMetadata)
    (flush_helper_fn : option FlushHelperFn) (operation_id : option string)
  : M unit :=
  let ctx := log_msg_ctx operation_id (Some (group_name group_obj))
               (Some (group_feed_name group_obj)) in
  match flush_helper_fn with
  | Some fn =>
      call_flush_helper fn (group_feed_name group_obj) (group_name group_obj)
  | None => ret tt
  end ;;;
  count <- delete_records_in CpeV2Vulnerability (group_name group_obj) ;;
  log INFO (ctx ("Flushed " ++ pretty count ++ " CpeV2Vuln records")) ;;;
  count <- delete_records_in NvdV2Metadata (group_name group_obj) ;;
  log INFO (ctx ("Flushed " ++ pretty count ++ " NvdV2 records")) ;;;
  db_flush.

(** [record_count(self, group_name)] *)
Definition record_count (self : Feed Entity) (group_name : string) : M nat :=
  r <-
    try_finally
      (try_except (count_records_in NvdV2Metadata group_name)
         (fun e =>
            log EXCEPTION ("Error getting feed data group record count in package feed for group: "
                             ++ group_name) ;;;
            raise e))
      db_rollback ;;
  ret r.1.

End NvdV2Feed.

(** ** [class VulnDBFeed] *)

Module VulnDBFeed.

(** [_flush_group(self, group_obj, flush_helper_fn, operation_id)] *)
Definition _flush_group (self : Feed Entity) (group_obj : FeedGroupMetadata)
    (flush_helper_fn : option FlushHelperFn) (operation_id : option string)
  : M unit :=
  let ctx := log_msg_ctx operation_id (Some (group_name group_obj))
               (Some (group_feed_name group_obj)) in
  match flush_helper_fn with
  | Some fn =>
      call_flush_helper fn (group_feed_name group_obj) (group_name group_obj)
  | None => ret tt
  end ;;;
  count <- delete_records_in VulnDBCpe (group_name group_obj) ;;
  log INFO (ctx ("Flushed " ++ pretty count ++ " VulnDBCpe records")) ;;;
  count <- delete_records_in VulnDBMetadata (group_name group_obj) ;;
  log INFO (ctx ("Flushed " ++ pretty count ++ " VulnDBMetadata records")) ;;;
  db_flush.

(** [record_count(self, group_name)] *)
Definition record_count (self : Feed Entity) (group_name : string) : M nat :=
  r <-
    try_finally
      (try_except (count_records_in VulnDBMetadata group_name)
         (fun e =>
            log EXCEPTION ("Error getting feed data group record count in vulndb feed for group: "
                             ++ group_name) ;;;
            raise e))
      db_rollback ;;
  ret r.1.

End VulnDBFeed.

(** The part of [AnchoreServiceFeed.sync] that precedes
    [self._update_last_full_sync_timestamp()]: it yields [result['groups']],
    [failed_count] and [sync_time]. *)
Definition sync_until_timestamps {T : Type}
    (sync_group : GroupDownloadResult -> bool -> LocalFeedDataRepo ->
                  option string -> M GroupSyncResult)
    (self : Feed T) (fetched_data : LocalFeedDataRepo) (full_flush : bool)
    (event_client : option CatalogClient) (operation_id : option string)
  : M (list GroupSyncResult * nat * Z) :=
  t <- time_time ;;
  log INFO (log_msg_ctx operation_id (__feed_name__ self) None
              "Starting feed sync") ;;;
  st <- AnchoreServiceFeed.sync_groups sync_group fetched_data full_flush
          event_client operation_id
          (AnchoreServiceFeed.fetched_groups self fetched_data) [] 0 ;;
  t' <- time_time ;;
  ret (st, (t' - t)%Z).

(** ** Observations used in the statements *)


(** Match-equivalence in the words of the spec: same [id], same
    [namespace_name], equal sets of normalized [fixed_in] triples. *)
Definition match_equivalent_spec (a b : Vulnerability) : bool :=
  bool_decide (vuln_id a = vuln_id b)
  && bool_decide (vuln_namespace_name a = vuln_namespace_name b)
  && bool_decide (VulnerabilityFeed.normalized_fixes (vuln_fixed_in a)
                  = VulnerabilityFeed.normalized_fixes (vuln_fixed_in b)).

(** The row the lookup of [update_vulnerability] yields: a lookup that
    raises counts as no row. *)
Definition existing_row (record : Vulnerability) (w : World)
  : option Vulnerability :=
  match outcome (query_vulnerability (vuln_id record)
                   (vuln_namespace_name record)) w with
  | Ok o => o
  | Raise _ => None
  end.

(** [needs_update] in the words of the spec. *)
Definition needs_update_spec (record : Vulnerability) (w : World) : bool :=
  match existing_row record w with
  | None => true
  | Some ex => negb (match_equivalent_spec ex record)
  end.

(** Whether the [db.merge] of [update_vulnerability], its second database
    call, raises. *)
Definition merge_raises (w : World) : bool :=
  match faults w with
  | _ :: Some _ :: _ => true
  | _ => false
  end.

(** ** Sample data *)

Definition ex_started : datetime := mk_datetime 1000 None.

Definition ex_group : FeedGroupMetadata :=
  mk_FeedGroupMetadata "debian:10" "vulnerabilities" None.

Definition ex_feed_row : FeedMetadata :=
  mk_FeedMetadata "vulnerabilities" None None [ex_group].

Definition ex_db : Db :=
  mk_Db {[ "vulnerabilities" := ex_feed_row ]} ∅ ∅ ∅.

Definition ex_world (schedule : list (option exn)) : World :=
  mk_World ex_db ex_db schedule [] [] [] ∅ [].

Definition ex_vuln (id : string) : Vulnerability :=
  mk_Vulnerability id "debian:10" [] "".

Definition ex_mapper : Mapper Vulnerability :=
  fun raw =>
    if decide (raw = "bad") then Raise (Exception "cannot map")
    else Ok (ex_vuln raw).

Definition ex_flush_helper : FlushHelperFn :=
  fun d _ group => (Ok tt, filter (fun m => m.2 ≠ group) (image_matches d)).

Definition ex_processing_fn : VulnProcessingFn :=
  fun d v => (Ok ["image-1"], image_matches d).

Definition ex_feed : Feed Vulnerability :=
  mk_Feed (Some "vulnerabilities")
    (MappersWithGet (fun _ => Some (MapperInstance ex_mapper)))
    (Some ex_flush_helper) (Some "vulnerabilities").

Definition ex_gdr (group : string) : GroupDownloadResult :=
  mk_GroupDownloadResult "vulnerabilities" group ex_started 2.

Definition ex_read (feed group : string) (from_index : nat) : RecordStream :=
  if decide (group = "debian:10")
  then mk_RecordStream ["CVE-1"; "CVE-2"] None
  else mk_RecordStream ["bad"] None.

Definition ex_repo (groups : list string) : LocalFeedDataRepo :=
  mk_LocalFeedDataRepo (ex_gdr <$> groups) ex_read.

(** ** Predicates on runs *)

(** Hoare triples with a normal and an exceptional postcondition. *)
Definition spec {A : Type} (P : World -> Prop) (m : M A)
    (Q : A -> World -> Prop) (E : exn -> World -> Prop) : Prop :=
  forall w, P w ->
    match m w with
    | (Ok a, w') => Q a w'
    | (Raise e, w') => E e w'
    end.

(** [m] maintains [I] on both exits. *)
Definition keeps (I : World -> Prop) {A : Type} (m : M A) : Prop :=
  spec I m (fun _ => I) (fun _ => I).

(** [m] leaves the feed metadata alone, in the session and in the database. *)
Definition neutral {A : Type} (m : M A) : Prop :=
  forall w, feeds (committed (m w).2) = feeds (committed w) /\
            feeds (session (m w).2) = feeds (session w).

(** Invariants that read nothing but the feed metadata. *)
Definition feeds_determined (I : World -> Prop) : Prop :=
  forall w w', feeds (committed w') = feeds (committed w) ->
               feeds (session w') = feeds (session w) -> I w -> I w'.

(** [m] returns normally from every world. *)
Definition never_raises {A : Type} (m : M A) : Prop :=
  forall w, exists a, outcome m w = Ok a.

(** The database holds [c] or [s] for the feed row [k]. *)
Definition committed_row_among (k : string) (c s : option FeedMetadata)
    (w : World) : Prop :=
  feeds (committed w) !! k = c \/ feeds (committed w) !! k = s.

(** The session holds [row] for the feed [k]; the database holds for it what
    it held when the group sync began, [c], or, once the session has been
    committed, [row] as well. *)
Definition row_pending (k : string) (row : FeedMetadata)
    (c : option FeedMetadata) (w : World) : Prop :=
  feeds (session w) !! k = Some row /\ committed_row_among k c (Some row) w.


(** The database holds [c] for the feed row [k]. *)
Definition committed_row_is (k : string) (c : option FeedMetadata) (w : World)
  : Prop :=
  feeds (committed w) !! k = c.



(** What the loop does before it calls [self._sync_group] for a group. *)
Definition announce_group (gdr : GroupDownloadResult)
    (event_client : option CatalogClient) (operation_id : option string)
  : M unit :=
  log INFO (log_msg_ctx operation_id (Some (gdr_feed gdr)) (Some (gdr_group gdr))
              "Processing group for db update") ;;;
  notify_event (FeedGroupSyncStarted (gdr_feed gdr) (gdr_group gdr)) event_client.

(** What the loop does in its [except Exception as e] clause. *)
Definition report_failure (gdr : GroupDownloadResult) (e : exn)
    (event_client : option CatalogClient) (operation_id : option string)
  : M unit :=
  log EXCEPTION (log_msg_ctx operation_id (Some (gdr_feed gdr))
                   (Some (gdr_group gdr)) "Failed syncing group data") ;;;
  notify_event (FeedGroupSyncFailed (gdr_feed gdr) (gdr_group gdr) e)
    event_client.

(** ** More sample data *)

(** A feed that uses the generic [_sync_group] and [_flush_group] over the
    same metadata row. *)
Definition ex_generic_feed : Feed Entity :=
  mk_Feed (Some "vulnerabilities")
    (SingleMapper
       (MapperClass (fun _ group raw =>
                       Ok (ERecord GenericFeedDataRecord group raw raw))))
    None (Some "vulnerabilities").

(** A generic sync of the sample feed over a manifest with these groups. *)
Definition ex_generic_sync (groups : list string) : M FeedSyncResult :=
  AnchoreServiceFeed.sync
    (AnchoreServiceFeed._sync_group
       (AnchoreServiceFeed._flush_group ex_generic_feed) ex_generic_feed)
    ex_generic_feed (ex_repo groups) false None None.


(** A schedule under which the first database call goes through and the
    second raises: for the timestamp update, the refresh and the commit; for
    [update_vulnerability], the lookup and the merge. *)
Definition ex_commit_fails : list (option exn) :=
  [None; Some (DBError "connection lost")].

(** [m] leaves the part [proj] of the world as it found it, on both exits. *)
Definition unchanged {X A : Type} (proj : World -> X) (m : M A) : Prop :=
  forall w, proj (m w).2 = proj w.

(** The events a sync hands over for the groups [todo], in order: for each
    group a [FeedGroupSyncStarted], directly followed by the
    [FeedGroupSyncCompleted] or the [FeedGroupSyncFailed] of the same group. *)
Fixpoint bracketed (todo : list GroupDownloadResult) (evs : list Event) : Prop :=
  match todo with
  | [] => evs = []
  | gdr :: rest =>
      exists second evs',
        evs = FeedGroupSyncStarted (gdr_feed gdr) (gdr_group gdr) :: second :: evs' /\
        ((exists r, second = FeedGroupSyncCompleted (gdr_feed gdr) (gdr_group gdr) r) \/
         (exists e, second = FeedGroupSyncFailed (gdr_feed gdr) (gdr_group gdr) e)) /\
        bracketed rest evs'
  end.

(** The repository [fetched_data] with the manifest cut down to the entries
    of this feed; the stored records are the same. *)
Definition own_downloads {T : Type} (self : Feed T)
    (fetched_data : LocalFeedDataRepo) : LocalFeedDataRepo :=
  mk_LocalFeedDataRepo (AnchoreServiceFeed.fetched_groups self fetched_data)
    (read fetched_data).

(** Whatever [m] returns satisfies [P]; nothing is said of a run that
    raises. *)
Definition returns {A : Type} (m : M A) (P : A -> Prop) : Prop :=
  forall w a, outcome m w = Ok a -> P a.


(** What a sync is there to change: the database, the data tables and the
    image matches as the session sees them, the calls of the processing
    function, and the clock readings still to come. *)
Definition data_of (w : World) :=
  (committed w, vulnerabilities (session w), records (session w),
   image_matches (session w), fn_calls w, clock w).

(** A world whose session holds [d], not yet committed, over the sample
    database. *)
Definition ex_uncommitted (d : Db) : World :=
  mk_World ex_db d [] [] [] [] ∅ [].

(** The sample database with one vulnerability of the sample group. *)
Definition ex_db_vuln : Db :=
  mk_Db {[ "vulnerabilities" := ex_feed_row ]}
    {[ ("debian:10", "CVE-1") := ex_vuln "CVE-1" ]} ∅ ∅.

(** The sample database with one generic record of another group. *)
Definition ex_db_record : Db :=
  mk_Db {[ "vulnerabilities" := ex_feed_row ]} ∅
    {[ (GenericFeedDataRecord, "other-group", "k") := "payload" ]} ∅.

(** The sample database with two NVD rows, one of the sample group's
    namespace and one of another. *)
Definition ex_db_nvd : Db :=
  mk_Db {[ "vulnerabilities" := ex_feed_row ]} ∅
    {[ (NvdV2Metadata, "debian:10", "CVE-1") := "a";
       (NvdV2Metadata, "other", "CVE-2") := "b" ]} ∅.

(** The key of a vulnerability row: namespace and id. *)
Definition vuln_key (v : Vulnerability) : string * string :=
  (vuln_namespace_name v, vuln_id v).

(** Every record of [processed] is mapped by [mapper] to a row, and under
    the key of that row the table [m] holds a row that [mapper] made from a
    record of [all] and that has the same key. *)
Definition stream_rows_in (mapper : Mapper Vulnerability)
    (all processed : list Raw) (m : gmap (string * string) Vulnerability)
  : Prop :=
  forall raw, raw ∈ processed ->
    exists v v',
      mapper raw = Ok v /\
      m !! vuln_key v = Some v' /\
      vuln_key v' = vuln_key v /\
      exists raw', raw' ∈ all /\ mapper raw' = Ok v'.

(** No claim on a run that raises. *)
Definition any_exn : exn -> World -> Prop := fun _ _ => True.

(** ** Which [_flush_group] the generic [_sync_group] calls *)






(** ** The calls of [_sync_group] in one [sync] *)

(** The outcomes of the calls of [self._sync_group] that the loop of [sync]
    makes for the groups [todo] from the world [w], in the order of the
    calls: [Ok] with the result a call returned, [Raise] with the exception
    it raised.  Each call runs in the world the loop has reached. *)
Fixpoint group_sync_outcomes
    (sync_group : GroupDownloadResult -> bool -> LocalFeedDataRepo ->
                  option string -> M GroupSyncResult)
    (fetched_data : LocalFeedDataRepo) (full_flush : bool)
    (event_client : option CatalogClient) (operation_id : option string)
    (todo : list GroupDownloadResult) (w : World)
  : list (Res GroupSyncResult) :=
  match todo with
  | [] => []
  | gdr :: rest =>
      let w1 := final (announce_group gdr event_client operation_id) w in
      let call := sync_group gdr full_flush fetched_data None w1 in
      let w3 :=
        match call.1 with
        | Ok new_data =>
            final (notify_event
                     (FeedGroupSyncCompleted (gdr_feed gdr) (gdr_group gdr)
                        new_data) event_client) call.2
        | Raise e =>
            final (report_failure gdr e event_client operation_id) call.2
        end in
      call.1 :: group_sync_outcomes sync_group fetched_data full_flush
                  event_client operation_id rest w3
  end.

(** The outcomes of the calls of [self._sync_group] in one call of [sync]
    from the world [w]. *)
Definition sync_outcomes {T : Type}
    (sync_group : GroupDownloadResult -> bool -> LocalFeedDataRepo ->
                  option string -> M GroupSyncResult)
    (self : Feed T) (fetched_data : LocalFeedDataRepo) (full_flush : bool)
    (event_client : option CatalogClient) (operation_id : option string)
    (w : World) : list (Res GroupSyncResult) :=
  group_sync_outcomes sync_group fetched_data full_flush event_client
    operation_id (AnchoreServiceFeed.fetched_groups self fetched_data)
    (final (log INFO (log_msg_ctx operation_id (__feed_name__ self) None
                        "Starting feed sync"))
       (final time_time w)).

(** The results of the calls that returned, in order. *)
Fixpoint returned_results (outs : list (Res GroupSyncResult))
  : list GroupSyncResult :=
  match outs with
  | [] => []
  | Ok r :: rest => r :: returned_results rest
  | Raise _ :: rest => returned_results rest
  end.

(** The number of calls that raised. *)
Fixpoint raised_count (outs : list (Res GroupSyncResult)) : nat :=
  match outs with
  | [] => 0
  | Ok _ :: rest => raised_count rest
  | Raise _ :: rest => S (raised_count rest)
  end.

(** * Properties *)

(** ** The registry *)

(** For any registry that holds at least one feed, a name that is not a key
    is answered with the first registered class and never with [KeyError]. *)
Lemma get_feed_by_name_fallback (registry : Registry) (name : string)
    (f : FeedCls) (k : string) (rest : Registry) :
  registry = (k, f) :: rest ->
  dict_get registry (lower name) = None ->
  FeedMeta.get_feed_by_name registry name = Ok f.
Proof.
  intros -> Hget. unfold FeedMeta.get_feed_by_name. by rewrite Hget.
Qed.

(** [KeyError] is raised only by the empty registry. *)
Lemma get_feed_by_name_KeyError (registry : Registry) (name : string) (e : exn) :
  FeedMeta.get_feed_by_name registry name = Raise e ->
  registry = [] /\ e = KeyError name.
Proof.
  unfold FeedMeta.get_feed_by_name.
  destruct (dict_get registry (lower name)); [done|].
  destruct registry as [|[k v] rest]; simpl; [|done].
  intros [= <-]. done.
Qed.

(** C1 (evaluation at the failing input).  With the four feeds of the module
    registered, [nosuchfeed] is not a key of the registry, yet looking it up
    does not raise [KeyError]: it returns [VulnerabilityFeed], the class
    registered first under the name [vulnerabilities]. *)
Theorem get_feed_by_name_unknown_returns_first :
  FeedMeta.registered_feed_names module_registry
    = ["vulnerabilities"; "packages"; "nvdv2"; "vulndb"] /\
  dict_get module_registry (lower "nosuchfeed") = None /\
  feed_class_by_name "nosuchfeed" = Ok VulnerabilityFeedCls.
Proof. repeat split; reflexivity. Qed.

(** ** Running the monad *)

Ltac run :=
  unfold outcome, final, bind, ret, raise, log, modify, modify_session,
    get_world, try_except, try_finally in *; simpl in *.

(** ** Match-equivalence *)

Lemma symmetric_difference_empty (a b : gset (string * string * string)) :
  VulnerabilityFeed.symmetric_difference a b = ∅ <-> a = b.
Proof.
  unfold VulnerabilityFeed.symmetric_difference. split.
  - intros H. apply set_eq. intros x.
    assert (Hx : x ∉ (a ∖ b) ∪ (b ∖ a)) by (rewrite H; apply not_elem_of_empty).
    rewrite elem_of_union, !elem_of_difference in Hx.
    destruct (decide (x ∈ a)), (decide (x ∈ b)); tauto.
  - intros ->. apply set_eq. intros x.
    rewrite elem_of_union, !elem_of_difference, elem_of_empty. tauto.
Qed.

(** On two records, the code computes the relation of the spec and raises
    nothing. *)
Lemma are_match_equivalent_records (a b : Vulnerability) (w : World) :
  outcome (VulnerabilityFeed._are_match_equivalent (Some a) (Some b)) w
    = Ok (match_equivalent_spec a b).
Proof.
  unfold VulnerabilityFeed._are_match_equivalent, match_equivalent_spec.
  destruct (decide (vuln_id a = vuln_id b)) as [Hid|Hid];
    destruct (decide (vuln_namespace_name a = vuln_namespace_name b)) as [Hns|Hns];
    rewrite ?(bool_decide_eq_true_2 _ Hid), ?(bool_decide_eq_false_2 _ Hid),
      ?(bool_decide_eq_true_2 _ Hns), ?(bool_decide_eq_false_2 _ Hns);
    try (rewrite (bool_decide_eq_false_2 (vuln_id a ≠ vuln_id b)) by auto);
    try (rewrite (bool_decide_eq_true_2 (vuln_id a ≠ vuln_id b)) by auto);
    try (rewrite (bool_decide_eq_false_2
                    (vuln_namespace_name a ≠ vuln_namespace_name b)) by auto);
    try (rewrite (bool_decide_eq_true_2
                    (vuln_namespace_name a ≠ vuln_namespace_name b)) by auto);
    simpl; try reflexivity.
  unfold VulnerabilityFeed.getattr. run.
  destruct (decide _) as [Hd|Hd]; simpl.
  - rewrite bool_decide_eq_false_2; [done|].
    intros Heq. apply Hd. by apply symmetric_difference_empty.
  - rewrite bool_decide_eq_true_2; [done|].
    apply symmetric_difference_empty. by apply dec_stable.
Qed.

Lemma match_equivalent_spec_refl (a : Vulnerability) :
  match_equivalent_spec a a = true.
Proof.
  unfold match_equivalent_spec. by rewrite !bool_decide_eq_true_2.
Qed.

Lemma match_equivalent_spec_sym (a b : Vulnerability) :
  match_equivalent_spec a b = match_equivalent_spec b a.
Proof.
  unfold match_equivalent_spec.
  f_equal; [f_equal|]; apply bool_decide_ext; split; congruence.
Qed.

Lemma match_equivalent_spec_true (a b : Vulnerability) :
  match_equivalent_spec a b = true <->
  vuln_id a = vuln_id b /\
  vuln_namespace_name a = vuln_namespace_name b /\
  VulnerabilityFeed.symmetric_difference
    (VulnerabilityFeed.normalized_fixes (vuln_fixed_in a))
    (VulnerabilityFeed.normalized_fixes (vuln_fixed_in b)) = ∅.
Proof.
  unfold match_equivalent_spec.
  rewrite !andb_true_iff, !bool_decide_eq_true, symmetric_difference_empty.
  tauto.
Qed.

(** C4 (evaluation at the failing inputs).  When either argument is [None]
    the function does not return [False]: building the debug line reads
    [.id] of the [None] argument and the call raises [AttributeError]. *)
Theorem are_match_equivalent_none_raises (v : option Vulnerability)
    (b : Vulnerability) (w : World) :
  outcome (VulnerabilityFeed._are_match_equivalent None v) w
    = Raise (AttributeError "id") /\
  outcome (VulnerabilityFeed._are_match_equivalent (Some b) None) w
    = Raise (AttributeError "id").
Proof. split; by destruct v. Qed.

(** C8.  Match-equivalence is reflexive and symmetric: on every record [a]
    the function returns [True] for [(a, a)], and on every pair of records it
    returns the same answer for [(a, b)] as for [(b, a)], whatever the state
    of the world it is called in. *)
Theorem are_match_equivalent_refl_sym (a b : Vulnerability) (w w' : World) :
  outcome (VulnerabilityFeed._are_match_equivalent (Some a) (Some a)) w
    = Ok true /\
  (outcome (VulnerabilityFeed._are_match_equivalent (Some a) (Some b)) w
     = Ok true <->
   outcome (VulnerabilityFeed._are_match_equivalent (Some b) (Some a)) w'
     = Ok true).
Proof.
  rewrite !are_match_equivalent_records, match_equivalent_spec_refl.
  by rewrite (match_equivalent_spec_sym a b).
Qed.

(** ** Reasoning about runs *)

Lemma final_bind {A B : Type} (m : M A) (k : A -> M B) (w : World) :
  final (bind m k) w =
  match outcome m w with
  | Ok a => final (k a) (final m w)
  | Raise _ => final m w
  end.
Proof. unfold final, outcome, bind. by destruct (m w) as [[a|e] w']. Qed.

Lemma outcome_bind {A B : Type} (m : M A) (k : A -> M B) (w : World) :
  outcome (bind m k) w =
  match outcome m w with
  | Ok a => outcome (k a) (final m w)
  | Raise e => Raise e
  end.
Proof. unfold final, outcome, bind. by destruct (m w) as [[a|e] w']. Qed.

Lemma bind_assoc {A B C : Type} (m : M A) (k : A -> M B) (h : B -> M C) (w : World) :
  bind (bind m k) h w = bind m (fun a => bind (k a) h) w.
Proof. unfold bind. by destruct (m w) as [[a|e] w']. Qed.

Lemma spec_ret {A : Type} (P : World -> Prop) (a : A) Q E :
  (forall w, P w -> Q a w) -> spec P (ret a) Q E.
Proof. intros H w Hw. by apply H. Qed.

Lemma spec_raise {A : Type} (P : World -> Prop) (e : exn) (Q : A -> World -> Prop) E :
  (forall w, P w -> E e w) -> spec P (raise e) Q E.
Proof. intros H w Hw. by apply H. Qed.

Lemma spec_bind {A B : Type} (P : World -> Prop) (m : M A) (k : A -> M B)
    (Q : A -> World -> Prop) (R : B -> World -> Prop) E :
  spec P m Q E -> (forall a, spec (Q a) (k a) R E) -> spec P (bind m k) R E.
Proof.
  intros Hm Hk w Hw. specialize (Hm w Hw). unfold bind.
  destruct (m w) as [[a|e] w']; [by apply Hk|done].
Qed.

Lemma spec_try_except {A : Type} (P : World -> Prop) (m : M A) (h : exn -> M A)
    (Q : A -> World -> Prop) (E E' : exn -> World -> Prop) :
  spec P m Q E -> (forall e, spec (E e) (h e) Q E') ->
  spec P (try_except m h) Q E'.
Proof.
  intros Hm Hh w Hw. specialize (Hm w Hw). unfold try_except.
  destruct (m w) as [[a|e] w']; [done|by apply Hh].
Qed.

Lemma spec_try_finally {A B : Type} (P : World -> Prop) (m : M A) (f : M B)
    (Q : A -> World -> Prop) (E : exn -> World -> Prop)
    (R : A * B -> World -> Prop) (E' : exn -> World -> Prop) :
  spec P m Q E ->
  (forall a, spec (Q a) f (fun b => R (a, b)) E') ->
  (forall e, spec (E e) f (fun _ => E' e) E') ->
  spec P (try_finally m f) R E'.
Proof.
  intros Hm Hok Hex w Hw. specialize (Hm w Hw). unfold try_finally.
  destruct (m w) as [[a|e] w'].
  - specialize (Hok a w' Hm). by destruct (f w') as [[b|e'] w''].
  - specialize (Hex e w' Hm). by destruct (f w') as [[b|e'] w''].
Qed.

Lemma spec_conseq {A : Type} (P P' : World -> Prop) (m : M A)
    (Q Q' : A -> World -> Prop) (E E' : exn -> World -> Prop) :
  spec P m Q E ->
  (forall w, P' w -> P w) -> (forall a w, Q a w -> Q' a w) ->
  (forall e w, E e w -> E' e w) ->
  spec P' m Q' E'.
Proof.
  intros Hm HP HQ HE w Hw. specialize (Hm w (HP w Hw)).
  destruct (m w) as [[a|e] w']; auto.
Qed.

Lemma neutral_ret {A : Type} (a : A) : neutral (ret a).
Proof. done. Qed.
Lemma neutral_raise {A : Type} (e : exn) : neutral (@raise A e).
Proof. done. Qed.
Lemma neutral_bind {A B : Type} (m : M A) (k : A -> M B) :
  neutral m -> (forall a, neutral (k a)) -> neutral (bind m k).
Proof.
  intros Hm Hk w. specialize (Hm w). unfold bind.
  destruct (m w) as [[a|e] w']; simpl in *; [|done].
  destruct (Hk a w') as [-> ->]. done.
Qed.
Lemma neutral_try_except {A : Type} (m : M A) (h : exn -> M A) :
  neutral m -> (forall e, neutral (h e)) -> neutral (try_except m h).
Proof.
  intros Hm Hh w. specialize (Hm w). unfold try_except.
  destruct (m w) as [[a|e] w']; simpl in *; [done|].
  destruct (Hh e w') as [-> ->]. done.
Qed.
Lemma neutral_try_finally {A B : Type} (m : M A) (f : M B) :
  neutral m -> neutral f -> neutral (try_finally m f).
Proof.
  intros Hm Hf w. specialize (Hm w). unfold try_finally.
  destruct (m w) as [r w']; simpl in *. specialize (Hf w').
  destruct (f w') as [[b|e] w'']; simpl in *; destruct r; simpl;
    destruct Hf as [-> ->]; done.
Qed.
Lemma neutral_modify (f : World -> World) :
  (forall w, feeds (committed (f w)) = feeds (committed w) /\
             feeds (session (f w)) = feeds (session w)) ->
  neutral (modify f).
Proof. intros H w. apply H. Qed.
Lemma neutral_modify_session (f : Db -> Db) :
  (forall d, feeds (f d) = feeds d) -> neutral (modify_session f).
Proof. intros H w. simpl. split; [done|apply H]. Qed.
Lemma neutral_get_world : neutral get_world.
Proof. done. Qed.
Lemma neutral_log lvl msg : neutral (log lvl msg).
Proof. done. Qed.
Lemma neutral_time_time : neutral time_time.
Proof. intros w. unfold time_time. by destruct (clock w). Qed.
Lemma neutral_io : neutral io.
Proof. intros w. unfold io. by destruct (faults w) as [|[e|] f]. Qed.
Lemma neutral_lift {A : Type} (r : Res A) : neutral (fun w => (r, w)).
Proof. done. Qed.
Lemma neutral_call_flush_helper fn f g : neutral (call_flush_helper fn f g).
Proof. intros w. unfold call_flush_helper. by destruct (fn _ _ _). Qed.
Lemma neutral_call_flush_helper_of_self fn f g :
  neutral (call_flush_helper_of_self fn f g).
Proof. done. Qed.
Lemma neutral_db_refresh md : neutral (db_refresh md).
Proof.
  intros w. unfold db_refresh, bind, io, get_world, raise, ret.
  destruct md as [k|]; [|done].
  destruct (faults w) as [|[e|] f]; simpl; try done;
    by destruct (feeds (session w) !! k).
Qed.
Lemma neutral_call_processing_fn fn v : neutral (call_processing_fn fn v).
Proof. intros w. unfold call_processing_fn. by destruct (fn _ _). Qed.
Lemma neutral_record_event ev d : neutral (record_event ev d).
Proof. done. Qed.

Create HintDb neutral.
#[local] Hint Resolve neutral_ret neutral_raise neutral_get_world neutral_log
  neutral_time_time neutral_io neutral_lift neutral_call_flush_helper
  neutral_call_flush_helper_of_self neutral_db_refresh
  neutral_call_processing_fn neutral_record_event : neutral.

Ltac neutral_step :=
  lazymatch goal with
  | |- neutral (bind _ _) => apply neutral_bind; [|intros ?]
  | |- neutral (try_except _ _) => apply neutral_try_except; [|intros ?]
  | |- neutral (try_finally _ _) => apply neutral_try_finally
  | |- neutral (match ?x with _ => _ end) => destruct x
  | |- neutral (if ?x then _ else _) => destruct x
  | |- neutral _ => solve [auto with neutral]
  end.
Ltac neutral_tac := repeat neutral_step.

Lemma feeds_upsert e d : feeds (upsert e d) = feeds d.
Proof. by destruct e. Qed.

Lemma neutral_db_merge e : neutral (db_merge e).
Proof.
  unfold db_merge. neutral_tac.
  all: try apply neutral_modify_session, feeds_upsert.
Qed.
Lemma neutral_db_flush : neutral db_flush.
Proof. apply neutral_io. Qed.
Lemma neutral_db_add : neutral db_add.
Proof. apply neutral_ret. Qed.
Lemma neutral_query_vulnerability id ns : neutral (query_vulnerability id ns).
Proof. unfold query_vulnerability. neutral_tac. Qed.
Lemma neutral_delete_records t : neutral (delete_records t).
Proof.
  unfold delete_records. neutral_tac.
  all: try by apply neutral_modify_session.
Qed.
Lemma neutral_delete_fixed_artifacts ns : neutral (delete_fixed_artifacts ns).
Proof.
  unfold delete_fixed_artifacts. neutral_tac.
  all: try by apply neutral_modify_session.
Qed.
Lemma neutral_delete_vulnerabilities ns : neutral (delete_vulnerabilities ns).
Proof.
  unfold delete_vulnerabilities. neutral_tac.
  all: try by apply neutral_modify_session.
Qed.
Lemma neutral_delete_records_in t ns : neutral (delete_records_in t ns).
Proof.
  unfold delete_records_in. neutral_tac.
  all: try by apply neutral_modify_session.
Qed.
Lemma neutral_notify_event ev c : neutral (notify_event ev c).
Proof. unfold notify_event, add_event. neutral_tac. Qed.
#[local] Hint Resolve neutral_db_merge neutral_db_flush neutral_db_add
  neutral_query_vulnerability neutral_delete_records
  neutral_delete_fixed_artifacts neutral_delete_vulnerabilities
  neutral_delete_records_in neutral_notify_event : neutral.

Lemma neutral_group_by_name {T} (self : Feed T) name :
  neutral (AnchoreServiceFeed.group_by_name self name).
Proof. unfold AnchoreServiceFeed.group_by_name. neutral_tac. Qed.
Lemma neutral_load_mapper {T} (self : Feed T) g :
  neutral (AnchoreServiceFeed._load_mapper self g).
Proof. unfold AnchoreServiceFeed._load_mapper. neutral_tac. Qed.
Lemma neutral_generic_flush_group {T} (self : Feed T) g op :
  neutral (AnchoreServiceFeed._flush_group self g op).
Proof. unfold AnchoreServiceFeed._flush_group. neutral_tac. Qed.
Lemma neutral_vuln_flush_group self g op :
  neutral (VulnerabilityFeed._flush_group self g op).
Proof. unfold VulnerabilityFeed._flush_group. neutral_tac. Qed.
Lemma neutral_are_match_equivalent a b :
  neutral (VulnerabilityFeed._are_match_equivalent a b).
Proof.
  unfold VulnerabilityFeed._are_match_equivalent, VulnerabilityFeed.getattr.
  neutral_tac.
Qed.
#[local] Hint Resolve neutral_group_by_name neutral_load_mapper
  neutral_generic_flush_group neutral_vuln_flush_group
  neutral_are_match_equivalent : neutral.
Lemma neutral_update_vulnerability r fn :
  neutral (VulnerabilityFeed.update_vulnerability r fn).
Proof. unfold VulnerabilityFeed.update_vulnerability. neutral_tac. Qed.
#[local] Hint Resolve neutral_update_vulnerability : neutral.


Lemma keeps_bind (I : World -> Prop) {A B : Type} (m : M A) (k : A -> M B) :
  keeps I m -> (forall a, keeps I (k a)) -> keeps I (bind m k).
Proof. intros Hm Hk. by apply (spec_bind _ _ _ (fun _ => I)). Qed.

Lemma keeps_try_except (I : World -> Prop) {A : Type} (m : M A) (h : exn -> M A) :
  keeps I m -> (forall e, keeps I (h e)) -> keeps I (try_except m h).
Proof. intros Hm Hh. by apply (spec_try_except _ _ _ _ (fun _ => I)). Qed.

Lemma keeps_try_finally (I : World -> Prop) {A B : Type} (m : M A) (f : M B) :
  keeps I m -> keeps I f -> keeps I (try_finally m f).
Proof.
  intros Hm Hf.
  apply (spec_try_finally _ _ _ (fun _ => I) (fun _ => I)); auto.
Qed.

Lemma row_pending_determined k row c : feeds_determined (row_pending k row c).
Proof.
  intros w w' Hc Hs [? ?]. unfold row_pending, committed_row_among in *.
  by rewrite Hc, Hs.
Qed.

Lemma committed_row_among_determined k c s :
  feeds_determined (committed_row_among k c s).
Proof. intros w w' Hc Hs ?. unfold committed_row_among in *. by rewrite Hc. Qed.

Lemma committed_row_is_determined k c : feeds_determined (committed_row_is k c).
Proof. intros w w' Hc Hs ?. unfold committed_row_is. by rewrite Hc. Qed.

#[local] Hint Resolve row_pending_determined committed_row_among_determined
  committed_row_is_determined : neutral.







Lemma spec_pure_pre {A : Type} (phi : Prop) (P : World -> Prop) (m : M A) Q E :
  (phi -> spec P m Q E) -> spec (fun w => phi /\ P w) m Q E.
Proof. intros H w [Hphi Hw]. by apply H. Qed.






Lemma never_raises_ret {A : Type} (a : A) : never_raises (ret a).
Proof. intros w. by exists a. Qed.
Lemma never_raises_bind {A B : Type} (m : M A) (k : A -> M B) :
  never_raises m -> (forall a, never_raises (k a)) -> never_raises (bind m k).
Proof.
  intros Hm Hk w. destruct (Hm w) as [a Ha].
  rewrite outcome_bind, Ha. apply Hk.
Qed.
Lemma never_raises_try_except {A : Type} (m : M A) (h : exn -> M A) :
  (forall e, never_raises (h e)) -> never_raises (try_except m h).
Proof.
  intros Hh w. unfold outcome, try_except.
  destruct (m w) as [[a|e] w'] eqn:Hm; simpl; [by exists a|apply Hh].
Qed.
Lemma never_raises_modify (f : World -> World) : never_raises (modify f).
Proof. intros w. by exists tt. Qed.
Lemma never_raises_log lvl msg : never_raises (log lvl msg).
Proof. apply never_raises_modify. Qed.
Lemma never_raises_get_world : never_raises get_world.
Proof. intros w. by exists w. Qed.
Lemma never_raises_time_time : never_raises time_time.
Proof. intros w. unfold outcome, time_time. destruct (clock w); by eexists. Qed.
Lemma never_raises_record_event ev d : never_raises (record_event ev d).
Proof. apply never_raises_modify. Qed.
Lemma never_raises_db_rollback : never_raises db_rollback.
Proof. apply never_raises_modify. Qed.

Create HintDb never_raises.
#[local] Hint Resolve never_raises_ret never_raises_modify never_raises_log
  never_raises_get_world never_raises_time_time never_raises_record_event
  never_raises_db_rollback : never_raises.

Ltac never_raises_step :=
  lazymatch goal with
  | |- never_raises (bind _ _) => apply never_raises_bind; [|intros ?]
  | |- never_raises (try_except _ _) => apply never_raises_try_except; intros ?
  | |- never_raises (match ?x with _ => _ end) => destruct x
  | |- never_raises (if ?x then _ else _) => destruct x
  | |- never_raises _ => solve [auto with never_raises]
  end.
Ltac never_raises_tac := repeat never_raises_step.

Lemma never_raises_notify_event ev c : never_raises (notify_event ev c).
Proof. unfold notify_event. never_raises_tac. Qed.
#[local] Hint Resolve never_raises_notify_event : never_raises.












(** ** The group-name cache *)

Lemma cache_try_finally_flush {A : Type} (m : M A) (w : World) :
  cache (final (try_finally m ThreadLocalFeedGroupNameCache.flush) w) = ∅.
Proof.
  unfold final, try_finally, ThreadLocalFeedGroupNameCache.flush, modify.
  destruct (m w) as [[a|e] w']; done.
Qed.

Lemma final_bind_ret {A B : Type} (m : M A) (f : A -> B) (w : World) :
  final (bind m (fun a => ret (f a))) w = final m w.
Proof. unfold final, bind, ret. by destruct (m w) as [[a|e] w']. Qed.

(** C9.  Whatever the arguments and the world, and whether the call returns
    a result or raises, the thread-local group-name cache is empty when
    [VulnerabilityFeed.sync] is left. *)
Theorem vulnerability_sync_flushes_cache
    (fn : option VulnProcessingFn) (self : Feed Vulnerability)
    (fetched_data : LocalFeedDataRepo) (full_flush : bool)
    (event_client : option CatalogClient) (operation_id : option string)
    (w : World) :
  cache (final (VulnerabilityFeed.sync fn self fetched_data full_flush
                  event_client operation_id) w) = ∅.
Proof.
  unfold VulnerabilityFeed.sync.
  rewrite final_bind. simpl.
  rewrite final_bind.
  destruct (outcome _ _) eqn:Hsetup.
  - rewrite final_bind_ret. apply cache_try_finally_flush.
  - exfalso. revert Hsetup. unfold get_world, final; simpl.
    repeat case_match; done.
Qed.

(** Both exits occur: with the sample data the call returns a result, and
    when the final timestamp update cannot commit it raises; the cache is
    empty either way, although it was populated on entry. *)
Lemma vulnerability_sync_cache_examples :
  let run := VulnerabilityFeed.sync (Some ex_processing_fn) ex_feed
               (ex_repo []) false None None in
  (exists r, outcome run (ex_world []) = Ok r) /\
  outcome run (ex_world [None; Some (DBError "connection lost")])
    = Raise (DBError "connection lost") /\
  cache (final run (ex_world [])) = ∅ /\
  cache (final run (ex_world [None; Some (DBError "connection lost")])) = ∅.
Proof.
  split; [eexists; vm_compute; reflexivity|].
  split; [vm_compute; reflexivity|].
  split; vm_compute; reflexivity.
Qed.

(** ** The operation id of a vulnerability sync *)

(** C10.  [VulnerabilityFeed.sync] runs the generic sync with
    [operation_id = None], whatever operation id it was given; hence its
    result and everything it does (log lines included) are the same for any
    two operation ids. *)
Theorem vulnerability_sync_drops_operation_id
    (fn : option VulnProcessingFn) (self : Feed Vulnerability)
    (fetched_data : LocalFeedDataRepo) (full_flush : bool)
    (event_client : option CatalogClient) (op op' : option string) (w : World) :
  VulnerabilityFeed.sync fn self fetched_data full_flush event_client op w
  = (w0 <- get_world ;;
     match metadata self, metadata_groups (metadata self) w0 with
     | Some _, _ :: _ =>
         ThreadLocalFeedGroupNameCache.add
           (group_name <$> metadata_groups (metadata self) w0)
     | _, _ => ThreadLocalFeedGroupNameCache.flush
     end ;;;
     r <- try_finally
            (AnchoreServiceFeed.sync (VulnerabilityFeed._sync_group fn self)
               self fetched_data full_flush event_client None)
            ThreadLocalFeedGroupNameCache.flush ;;
     ret r.1) w /\
  VulnerabilityFeed.sync fn self fetched_data full_flush event_client op w
  = VulnerabilityFeed.sync fn self fetched_data full_flush event_client op' w.
Proof. split; reflexivity. Qed.

(** The generic sync itself does use its operation id, in its log lines. *)
Lemma generic_sync_logs_operation_id :
  let run op :=
    AnchoreServiceFeed.sync
      (AnchoreServiceFeed._sync_group
         (AnchoreServiceFeed._flush_group ex_generic_feed) ex_generic_feed)
      ex_generic_feed (ex_repo []) false None op in
  head (logs (final (run (Some "op-1")) (ex_world [])))
    = Some (INFO, "Starting feed sync (operation_id=op-1, feed=vulnerabilities, group=None)") /\
  logs (final (run (Some "op-1")) (ex_world []))
    <> logs (final (run None) (ex_world [])).
Proof. split; [vm_compute; reflexivity|]. vm_compute. discriminate. Qed.

(** ** The sync loop *)

Lemma sync_decompose {T : Type} sync_group (self : Feed T) fetched_data
    full_flush event_client operation_id (w : World) :
  AnchoreServiceFeed.sync sync_group self fetched_data full_flush event_client
    operation_id w
  = (p <- sync_until_timestamps sync_group self fetched_data full_flush
            event_client operation_id ;;
     AnchoreServiceFeed._update_last_full_sync_timestamp self ;;;
     ret (mk_FeedSyncResult (__feed_name__ self)
            (if (p.1.2 =? 0)%nat then "success" else "failure") p.2 p.1.1)) w.
Proof.
  unfold AnchoreServiceFeed.sync, sync_until_timestamps, bind, log, modify, ret.
  destruct (time_time w) as [[t|e] w1]; [|done]. simpl.
  destruct (AnchoreServiceFeed.sync_groups _ _ _ _ _ _ _ _ _) as [[st|e] w3];
    [|done].
  destruct (time_time w3) as [[t'|e] w4]; done.
Qed.

Lemma run_never_raises {A : Type} (m : M A) (w : World) :
  never_raises m -> exists a, m w = (Ok a, final m w).
Proof.
  intros Hm. destruct (Hm w) as [a Ha]. exists a.
  unfold outcome, final in *. destruct (m w) as [r w']. simpl in *. by subst.
Qed.

Lemma run_unit_never_raises (m : M unit) (w : World) :
  never_raises m -> m w = (Ok tt, final m w).
Proof. intros Hm. by destruct (run_never_raises m w Hm) as [[] ->]. Qed.

Lemma notify_event_events ev client (w : World) :
  exists d, events (final (notify_event ev client) w) = (events w ++ [(ev, d)])%list.
Proof.
  unfold notify_event, final. destruct client as [c|]; simpl.
  - unfold try_except, add_event, bind, io.
    destruct (faults w) as [|[e|] f]; simpl; by eexists.
  - by eexists.
Qed.

Lemma never_raises_announce_group gdr c op : never_raises (announce_group gdr c op).
Proof. unfold announce_group. never_raises_tac. Qed.

Lemma never_raises_report_failure gdr e c op :
  never_raises (report_failure gdr e c op).
Proof. unfold report_failure. never_raises_tac. Qed.

(** One turn of the loop, by the outcome of [self._sync_group]. *)
Lemma sync_groups_cons sync_group fetched_data full_flush event_client
    operation_id gdr rest groups failed_count (w : World) :
  AnchoreServiceFeed.sync_groups sync_group fetched_data full_flush event_client
    operation_id (gdr :: rest) groups failed_count w
  = let w1 := final (announce_group gdr event_client operation_id) w in
    match sync_group gdr full_flush fetched_data None w1 with
    | (Ok new_data, w2) =>
        AnchoreServiceFeed.sync_groups sync_group fetched_data full_flush
          event_client operation_id rest (groups ++ [new_data])%list failed_count
          (final (notify_event
                    (FeedGroupSyncCompleted (gdr_feed gdr) (gdr_group gdr)
                       new_data) event_client) w2)
    | (Raise e, w2) =>
        AnchoreServiceFeed.sync_groups sync_group fetched_data full_flush
          event_client operation_id rest groups (S failed_count)
          (final (report_failure gdr e event_client operation_id) w2)
    end.
Proof.
  simpl.
  change (bind (log INFO ?m) (fun _ => bind (notify_event ?ev ?c) ?k) w)
    with (bind (log INFO m) (fun _ => bind (notify_event ev c) k) w).
  rewrite <- bind_assoc.
  change (bind (log INFO _) (fun _ => notify_event _ _))
    with (announce_group gdr event_client operation_id).
  unfold bind at 1.
  rewrite (run_unit_never_raises _ w (never_raises_announce_group _ _ _)).
  unfold bind at 1. unfold try_except.
  unfold bind at 1.
  destruct (sync_group gdr full_flush fetched_data None _) as [[new_data|e] w2].
  - unfold bind at 1.
    rewrite (run_unit_never_raises _ w2 (never_raises_notify_event _ _)).
    reflexivity.
  - change (bind (log EXCEPTION ?m) (fun _ => bind (notify_event ?ev ?c) ?k) w2)
      with (bind (log EXCEPTION m) (fun _ => bind (notify_event ev c) k) w2).
    rewrite <- bind_assoc.
    change (bind (log EXCEPTION _) (fun _ => notify_event _ _))
      with (report_failure gdr e event_client operation_id).
    unfold bind at 1.
    rewrite (run_unit_never_raises _ w2 (never_raises_report_failure _ _ _ _)).
    reflexivity.
Qed.

Lemma report_failure_events gdr e client op (w : World) :
  exists d,
    events (final (report_failure gdr e client op) w)
    = (events w ++ [(FeedGroupSyncFailed (gdr_feed gdr) (gdr_group gdr) e, d)])%list.
Proof.
  unfold report_failure. rewrite final_bind. simpl.
  apply (notify_event_events _ client
           (final (log EXCEPTION
                     (log_msg_ctx op (Some (gdr_feed gdr)) (Some (gdr_group gdr))
                        "Failed syncing group data")) w)).
Qed.

(** The loop never raises, and every group it was given either adds one
    result to [result['groups']] or one to [failed_count]. *)
Lemma sync_groups_accounts sync_group fetched_data full_flush event_client
    operation_id todo groups failed_count (w : World) :
  exists groups' failed_count',
    outcome (AnchoreServiceFeed.sync_groups sync_group fetched_data full_flush
               event_client operation_id todo groups failed_count) w
      = Ok (groups', failed_count') /\
    (List.length groups' + failed_count'
     = List.length groups + failed_count + List.length todo)%nat.
Proof.
  revert groups failed_count w.
  induction todo as [|gdr rest IH]; intros groups failed_count w.
  - exists groups, failed_count. split; [done|simpl; lia].
  - unfold outcome. rewrite sync_groups_cons. cbv zeta.
    destruct (sync_group gdr full_flush fetched_data None _) as [[new_data|e] w2].
    + destruct (IH (groups ++ [new_data])%list failed_count
                  (final (notify_event
                            (FeedGroupSyncCompleted (gdr_feed gdr) (gdr_group gdr)
                               new_data) event_client) w2))
        as (groups' & fc' & Hrun & Hlen).
      exists groups', fc'. split; [exact Hrun|].
      rewrite Hlen, length_app. simpl. lia.
    + destruct (IH groups (S failed_count)
                  (final (report_failure gdr e event_client operation_id) w2))
        as (groups' & fc' & Hrun & Hlen).
      exists groups', fc'. split; [exact Hrun|]. rewrite Hlen. simpl. lia.
Qed.



(** ** The status of a feed sync *)

Lemma sync_until_timestamps_accounts {T : Type} sync_group (self : Feed T)
    fetched_data full_flush event_client operation_id (w : World) :
  exists groups failed_count sync_time,
    outcome (sync_until_timestamps sync_group self fetched_data full_flush
               event_client operation_id) w
      = Ok (groups, failed_count, sync_time) /\
    (List.length groups + failed_count
     = List.length (AnchoreServiceFeed.fetched_groups self fetched_data))%nat.
Proof.
  unfold sync_until_timestamps.
  rewrite outcome_bind.
  destruct (run_never_raises time_time w never_raises_time_time) as [t Ht].
  unfold outcome at 1. rewrite Ht. simpl.
  rewrite outcome_bind. simpl.
  rewrite outcome_bind.
  match goal with
  | |- context [AnchoreServiceFeed.sync_groups ?sg ?fd ?ff ?c ?op ?todo ?g ?n] =>
      destruct (sync_groups_accounts sg fd ff c op todo g n
                  (final (log INFO
                            (log_msg_ctx operation_id (__feed_name__ self) None
                               "Starting feed sync")) (final time_time w)))
        as (groups & fc & Hrun & Hlen)
  end.
  rewrite Hrun. rewrite outcome_bind.
  match goal with
  | |- context [outcome time_time ?w'] =>
      destruct (run_never_raises time_time w' never_raises_time_time) as [t' Ht'];
      unfold outcome at 1; rewrite Ht'
  end.
  simpl. exists groups, fc, (t' - t)%Z. split; [done|]. simpl in Hlen. lia.
Qed.

(** The loop returns what the calls of [self._sync_group] give: the results
    of the calls that returned are appended in order, whatever their status,
    and every call that raised adds one to [failed_count]. *)
Lemma sync_groups_outcomes sync_group fetched_data full_flush event_client
    operation_id todo groups failed_count (w : World) :
  let outs := group_sync_outcomes sync_group fetched_data full_flush
                event_client operation_id todo w in
  outcome (AnchoreServiceFeed.sync_groups sync_group fetched_data full_flush
             event_client operation_id todo groups failed_count) w
  = Ok ((groups ++ returned_results outs)%list,
        (failed_count + raised_count outs)%nat).
Proof.
  revert groups failed_count w.
  induction todo as [|gdr rest IH]; intros groups failed_count w.
  - simpl. unfold outcome, ret. simpl. by rewrite app_nil_r, Nat.add_0_r.
  - unfold outcome. rewrite sync_groups_cons. cbv zeta.
    simpl group_sync_outcomes.
    destruct (sync_group gdr full_flush fetched_data None _)
      as [[new_data|e] w2]; simpl.
    + specialize (IH (groups ++ [new_data])%list failed_count
                    (final (notify_event
                              (FeedGroupSyncCompleted (gdr_feed gdr)
                                 (gdr_group gdr) new_data) event_client) w2)).
      unfold outcome in IH. cbv zeta in IH. unfold final in *. rewrite IH.
      simpl. by rewrite <- app_assoc.
    + specialize (IH groups (S failed_count)
                    (final (report_failure gdr e event_client operation_id) w2)).
      unfold outcome in IH. cbv zeta in IH. unfold final in *. rewrite IH.
      simpl. f_equal. f_equal. lia.
Qed.

Lemma sync_until_timestamps_outcomes {T : Type} sync_group (self : Feed T)
    fetched_data full_flush event_client operation_id (w : World) :
  let outs := sync_outcomes sync_group self fetched_data full_flush
                event_client operation_id w in
  exists sync_time,
    outcome (sync_until_timestamps sync_group self fetched_data full_flush
               event_client operation_id) w
    = Ok (returned_results outs, raised_count outs, sync_time).
Proof.
  intros outs. subst outs. unfold sync_outcomes, sync_until_timestamps.
  rewrite outcome_bind.
  destruct (run_never_raises time_time w never_raises_time_time) as [t Ht].
  unfold outcome at 1. rewrite Ht. simpl.
  rewrite outcome_bind. simpl.
  rewrite outcome_bind.
  rewrite sync_groups_outcomes. cbv zeta. simpl.
  rewrite outcome_bind.
  match goal with
  | |- context [outcome time_time ?w'] =>
      destruct (run_never_raises time_time w' never_raises_time_time) as [t' Ht'];
      unfold outcome at 1; rewrite Ht'
  end.
  simpl. by exists (t' - t)%Z.
Qed.

Lemma raised_count_0 (outs : list (Res GroupSyncResult)) :
  raised_count outs = 0%nat <-> forall e, Raise e ∉ outs.
Proof.
  induction outs as [|[a|e] outs IH]; simpl.
  - split; [|done]. by intros _ e ?%elem_of_nil.
  - rewrite IH. split.
    + intros H e [?|?]%elem_of_cons; [done|by eapply H].
    + intros H e Hin. apply (H e). by apply list_elem_of_further.
  - split; [done|].
    intros H. exfalso. apply (H e), list_elem_of_here.
Qed.

Lemma outcomes_length (outs : list (Res GroupSyncResult)) :
  (List.length (returned_results outs) + raised_count outs
   = List.length outs)%nat.
Proof.
  induction outs as [|[a|e] outs IH]; simpl; lia.
Qed.

Lemma group_sync_outcomes_length sync_group fetched_data full_flush
    event_client operation_id todo (w : World) :
  List.length (group_sync_outcomes sync_group fetched_data full_flush
                 event_client operation_id todo w)
  = List.length todo.
Proof.
  revert w. induction todo as [|gdr rest IH]; intros w; simpl; [done|].
  by rewrite IH.
Qed.

(** C2, as the code has it.  When [sync] returns a result, its groups list
    holds the results of the calls of [_sync_group] that returned, in the
    order of the calls and whatever their status, and nothing else; its
    status is [success] exactly when no call of [_sync_group] raised, that
    is, exactly when the groups list holds one result for every group of the
    manifest that belongs to the feed; otherwise it is [failure].  The
    statuses of the results in the list play no part. *)
Theorem sync_status_counts_failures {T : Type}
    (sync_group : GroupDownloadResult -> bool -> LocalFeedDataRepo ->
                  option string -> M GroupSyncResult)
    (self : Feed T) (fetched_data : LocalFeedDataRepo) (full_flush : bool)
    (event_client : option CatalogClient) (operation_id : option string)
    (w : World) (r : FeedSyncResult) :
  let outs := sync_outcomes sync_group self fetched_data full_flush
                event_client operation_id w in
  outcome (AnchoreServiceFeed.sync sync_group self fetched_data full_flush
             event_client operation_id) w = Ok r ->
  fr_groups r = returned_results outs /\
  (fr_status r = "success" <-> forall e, Raise e ∉ outs) /\
  (fr_status r = "success" <->
   List.length (fr_groups r)
   = List.length (AnchoreServiceFeed.fetched_groups self fetched_data)) /\
  (fr_status r = "success" \/ fr_status r = "failure").
Proof.
  intros outs. unfold outcome at 1. rewrite sync_decompose.
  destruct (sync_until_timestamps_outcomes sync_group self fetched_data
              full_flush event_client operation_id w) as (t & Hrun).
  fold outs in Hrun.
  fold (outcome
          (p <- sync_until_timestamps sync_group self fetched_data full_flush
                  event_client operation_id ;;
           AnchoreServiceFeed._update_last_full_sync_timestamp self ;;;
           ret (mk_FeedSyncResult (__feed_name__ self)
                  (if (p.1.2 =? 0)%nat then "success" else "failure") p.2 p.1.1))
          w).
  rewrite outcome_bind, Hrun, outcome_bind.
  destruct (outcome (AnchoreServiceFeed._update_last_full_sync_timestamp self) _);
    [|done].
  simpl. intros [= <-]. simpl. split; [done|].
  pose proof (raised_count_0 outs) as Hzero.
  pose proof (outcomes_length outs) as Hlen.
  assert (Houts : List.length outs
                  = List.length (AnchoreServiceFeed.fetched_groups self
                                   fetched_data))
    by apply group_sync_outcomes_length.
  destruct (raised_count outs) as [|fc] eqn:Hfc; simpl.
  - split; [by rewrite <- Hzero|]. split; [|by left].
    split; [intros _; lia|done].
  - split; [|split; [|by right]].
    + split; [done|]. intros H. apply Hzero in H. done.
    + split; [done|]. intros H. lia.
Qed.

Lemma sync_status_counts_failures_witness :
  exists r,
    outcome (ex_generic_sync ["debian:10"; "debian:99"]) (ex_world []) = Ok r /\
    fr_status r = "success" /\
    (gr_status <$> fr_groups r) = ["success"; "failure"].
Proof.
  destruct (sync_status_counts_failures
              (AnchoreServiceFeed._sync_group
                 (AnchoreServiceFeed._flush_group ex_generic_feed)
                 ex_generic_feed)
              ex_generic_feed (ex_repo ["debian:10"; "debian:99"]) false None
              None (ex_world []) _ eq_refl)
    as (Hgroups & Hraise & Hlen & _).
  match type of Hgroups with fr_groups ?r = _ => exists r end.
  split; [reflexivity|]. split.
  - apply Hlen. reflexivity.
  - rewrite Hgroups. vm_compute. reflexivity.
Defined.

(** C2 fails as stated, in both directions.  A group missing from the feed
    metadata comes back with status [failure] without an exception, and the
    feed status is [success] all the same; and a group whose sync raises
    leaves no entry in the groups list, so every entry has status [success]
    while the feed status is [failure]. *)
Lemma sync_status_counterexample :
  (exists r,
     outcome (ex_generic_sync ["debian:99"]) (ex_world []) = Ok r /\
     (gr_status <$> fr_groups r) = ["failure"] /\
     ~ (fr_status r = "success" <->
        Forall (fun g => gr_status g = "success") (fr_groups r))) /\
  (exists r,
     outcome (ex_generic_sync ["debian:10"])
       (ex_world [None; Some (DBError "connection lost")]) = Ok r /\
     fr_groups r = [] /\
     ~ (fr_status r = "success" <->
        Forall (fun g => gr_status g = "success") (fr_groups r))).
Proof.
  split.
  - eexists. split; [vm_compute; reflexivity|]. split; [reflexivity|].
    simpl. intros [H _]. specialize (H eq_refl).
    apply Forall_cons in H as [H _]. discriminate.
  - eexists. split; [vm_compute; reflexivity|]. split; [reflexivity|].
    simpl. intros [_ H]. specialize (H (List.Forall_nil _)). discriminate.
Qed.

(** ** The final timestamp update *)

Lemma update_timestamp_failure {T : Type} (self : Feed T) (w : World) (e : exn) :
  let run := AnchoreServiceFeed._update_last_full_sync_timestamp self in
  outcome run w = Raise e ->
  session (final run w) = committed (final run w) /\
  committed (final run w) = committed w.
Proof.
  intros run. subst run.
  unfold AnchoreServiceFeed._update_last_full_sync_timestamp, outcome, final,
    db_refresh, utcnow, assign_feed_timestamps, db_commit, db_rollback, log,
    modify_session.
  unfold try_except, bind, io, time_time, get_world, modify, raise, ret.
  destruct (metadata self) as [k|]; simpl; [|done].
  destruct (faults w) as [|[e1|] [|[e2|] f]] eqn:Hf; simpl; try done.
  all: destruct (feeds (session w) !! k) as [row|]; simpl; try done.
  all: destruct (clock w) as [|t c]; simpl; rewrite ?Hf; simpl; done.
Qed.

(** C7, as the code has it.  When the update of the feed's [last_update] and
    [last_full_sync] that follows the groups fails with [e], the session is
    rolled back (it holds what the database holds, and the database holds
    what it held before the update), and [sync] itself raises [e]: the
    caller receives the error and no result record. *)
Theorem timestamp_failure_propagates {T : Type}
    (sync_group : GroupDownloadResult -> bool -> LocalFeedDataRepo ->
                  option string -> M GroupSyncResult)
    (self : Feed T) (fetched_data : LocalFeedDataRepo) (full_flush : bool)
    (event_client : option CatalogClient) (operation_id : option string)
    (w : World) (e : exn) :
  let w1 := final (sync_until_timestamps sync_group self fetched_data
                     full_flush event_client operation_id) w in
  let run := AnchoreServiceFeed.sync sync_group self fetched_data full_flush
               event_client operation_id in
  outcome (AnchoreServiceFeed._update_last_full_sync_timestamp self) w1
    = Raise e ->
  outcome run w = Raise e /\
  session (final run w) = committed (final run w) /\
  committed (final run w) = committed w1.
Proof.
  intros w1 run Hfail. subst run.
  destruct (update_timestamp_failure self w1 e Hfail) as [Hs Hc].
  assert (Hp : exists p,
             sync_until_timestamps sync_group self fetched_data full_flush
               event_client operation_id w = (Ok p, w1)).
  { destruct (sync_until_timestamps_accounts sync_group self fetched_data
                full_flush event_client operation_id w)
      as (groups & fc & t & Hrun & _).
    exists (groups, fc, t). subst w1. unfold outcome, final in *.
    destruct (sync_until_timestamps _ _ _ _ _ _ w) as [r w']. simpl in *.
    by subst r. }
  destruct Hp as [p Hp].
  assert (Hupd : AnchoreServiceFeed._update_last_full_sync_timestamp self w1
                 = (Raise e,
                    final (AnchoreServiceFeed._update_last_full_sync_timestamp
                             self) w1)).
  { unfold outcome, final in *.
    destruct (AnchoreServiceFeed._update_last_full_sync_timestamp self w1)
      as [r w']. simpl in *. by subst r. }
  assert (Hsync : AnchoreServiceFeed.sync sync_group self fetched_data
                    full_flush event_client operation_id w
                  = (Raise e,
                     final (AnchoreServiceFeed._update_last_full_sync_timestamp
                              self) w1)).
  { rewrite sync_decompose. unfold bind at 1. rewrite Hp.
    unfold bind at 1. by rewrite Hupd. }
  unfold outcome at 1, final at 1 2 3. rewrite Hsync. simpl. done.
Qed.

Lemma timestamp_failure_propagates_witness :
  outcome (ex_generic_sync []) (ex_world ex_commit_fails)
    = Raise (DBError "connection lost") /\
  session (final (ex_generic_sync []) (ex_world ex_commit_fails))
    = committed (final (ex_generic_sync []) (ex_world ex_commit_fails)).
Proof.
  destruct (timestamp_failure_propagates
              (AnchoreServiceFeed._sync_group
                 (AnchoreServiceFeed._flush_group ex_generic_feed)
                 ex_generic_feed)
              ex_generic_feed (ex_repo []) false None None
              (ex_world ex_commit_fails) (DBError "connection lost"))
    as (Hout & Hsess & _).
  - vm_compute. reflexivity.
  - split; [exact Hout|exact Hsess].
Defined.

(** C7 fails as stated: when the timestamp update fails, the caller does not
    receive a result record with status [failure]; it receives the
    exception. *)
Lemma timestamp_failure_counterexample :
  let w := ex_world ex_commit_fails in
  let w1 := final (sync_until_timestamps
                     (AnchoreServiceFeed._sync_group
                        (AnchoreServiceFeed._flush_group ex_generic_feed)
                        ex_generic_feed)
                     ex_generic_feed (ex_repo []) false None None) w in
  outcome (AnchoreServiceFeed._update_last_full_sync_timestamp ex_generic_feed) w1
    = Raise (DBError "connection lost") /\
  ~ (exists r, outcome (ex_generic_sync []) w = Ok r /\ fr_status r = "failure").
Proof.
  split; [vm_compute; reflexivity|].
  intros (r & Hr & _). vm_compute in Hr. discriminate.
Qed.

(** ** [update_vulnerability] *)

(** On two records the comparison returns the relation of the spec and only
    adds to the log. *)
Lemma are_match_equivalent_run (a b : Vulnerability) (w : World) :
  exists l,
    VulnerabilityFeed._are_match_equivalent (Some a) (Some b) w
    = (Ok (match_equivalent_spec a b), set_logs l w).
Proof.
  pose proof (are_match_equivalent_records a b w) as Hout.
  unfold outcome in Hout.
  unfold VulnerabilityFeed._are_match_equivalent, VulnerabilityFeed.getattr in *.
  destruct (bool_decide _ || bool_decide _); simpl in *.
  - unfold bind, ret, log, modify in *. simpl in *.
    injection Hout as <-. by eexists.
  - unfold bind, ret, log, modify in *. simpl in *.
    destruct (decide _); simpl in *; injection Hout as <-.
    + by eexists.
    + exists (logs w). by destruct w.
Qed.

Lemma app_singleton_neq {A : Type} (l : list A) (x : A) : (l ++ [x])%list <> l.
Proof.
  intros H. apply (f_equal List.length) in H. rewrite length_app in H.
  simpl in H. lia.
Qed.

(** C5, as the code has it.  In a call whose [db.merge] does not raise, the
    processing function is invoked, with the session that holds the merged
    record and with that record, exactly when it is configured and
    [needs_update] holds (no existing row, a failed lookup counting as none,
    or an existing row that is not match-equivalent to the new record); when
    it is not invoked, the call returns the empty list.  In a call whose
    [db.merge] raises, the processing function is not invoked, whatever was
    decided, and the call raises the exception of [db.merge]. *)
Theorem update_vulnerability_invokes_fn (record : Vulnerability)
    (fn : option VulnProcessingFn) (w : World) :
  let run := VulnerabilityFeed.update_vulnerability record fn in
  (merge_raises w = false ->
   (fn_calls (final run w) = (fn_calls w ++ [record])%list <->
    is_Some fn /\ needs_update_spec record w = true) /\
   (fn_calls (final run w) = (fn_calls w ++ [record])%list \/
    fn_calls (final run w) = fn_calls w /\ outcome run w = Ok []) /\
   (forall f, fn = Some f -> needs_update_spec record w = true ->
      outcome run w = (f (upsert (EVulnerability record) (session w)) record).1)) /\
  (merge_raises w = true ->
   fn_calls (final run w) = fn_calls w /\
   exists e, faults w !! 1%nat = Some (Some e) /\ outcome run w = Raise e).
Proof.
  intros run. subst run. split.
  - intros Hmerge.
    unfold needs_update_spec, existing_row, merge_raises in *.
    unfold VulnerabilityFeed.update_vulnerability, outcome, final,
      query_vulnerability, db_merge, call_processing_fn, log, modify_session.
    unfold try_except, bind, io, get_world, modify, raise, ret.
    destruct (faults w) as [|[e1|] [|[e2|] f]] eqn:Hf; simpl; try done.
    all: rewrite ?Hf; simpl.
    all: try (destruct (vulnerabilities (session w) !! _) as [ex|] eqn:Hex; simpl).
    all: try match goal with
         | |- context [VulnerabilityFeed._are_match_equivalent (Some ?a) (Some ?b) ?W] =>
             destruct (are_match_equivalent_run a b W) as [l Hl]; rewrite Hl;
             destruct (match_equivalent_spec a b); simpl
         end.
    all: rewrite ?Hf; simpl.
    all: destruct fn as [fn|]; simpl.
    all: try (destruct (fn _ _) as [[ids|e] im] eqn:Hfn; simpl).
    all: pose proof (app_singleton_neq (fn_calls w) record) as Hneq.
    all: repeat split; try done; try tauto; try (by left); try (by right);
      try (by intros [[? ?] ?]); try (by intros [? ?]);
      try (by intros ? [= <-] ?; rewrite Hfn); try (by eexists).
  - unfold merge_raises.
    unfold VulnerabilityFeed.update_vulnerability, outcome, final,
      query_vulnerability, db_merge, call_processing_fn, log, modify_session.
    unfold try_except, bind, io, get_world, modify, raise, ret.
    destruct (faults w) as [|[e1|] [|[e2|] f]] eqn:Hf; simpl; try done.
    all: rewrite ?Hf; simpl.
    all: try (destruct (vulnerabilities (session w) !! _) as [ex|] eqn:Hex; simpl).
    all: try match goal with
         | |- context [VulnerabilityFeed._are_match_equivalent (Some ?a) (Some ?b) ?W] =>
             destruct (are_match_equivalent_run a b W) as [l Hl]; rewrite Hl;
             destruct (match_equivalent_spec a b); simpl
         end.
    all: rewrite ?Hf; simpl.
    all: intros _; split; [done|]; by exists e2.
Qed.

Lemma update_vulnerability_invokes_fn_witness :
  fn_calls (final (VulnerabilityFeed.update_vulnerability (ex_vuln "CVE-1")
                     (Some ex_processing_fn)) (ex_world []))
    = [ex_vuln "CVE-1"] /\
  outcome (VulnerabilityFeed.update_vulnerability (ex_vuln "CVE-1")
             (Some ex_processing_fn)) (ex_world [])
    = Ok ["image-1"].
Proof.
  destruct (proj1 (update_vulnerability_invokes_fn (ex_vuln "CVE-1")
                     (Some ex_processing_fn) (ex_world [])) eq_refl)
    as (Hiff & _ & Hout).
  split.
  - apply Hiff. split; [by eexists|reflexivity].
  - apply (Hout ex_processing_fn eq_refl). reflexivity.
Defined.

(** C5 fails as stated: in a call whose [db.merge] raises, the processing
    function is configured and [needs_update] holds, yet the function is not
    invoked, and the call returns no collection: it raises. *)
Lemma update_vulnerability_counterexample :
  let w := ex_world ex_commit_fails in
  let fn := Some ex_processing_fn in
  let record := ex_vuln "CVE-1" in
  let run := VulnerabilityFeed.update_vulnerability record fn in
  (is_Some fn /\ needs_update_spec record w = true) /\
  fn_calls (final run w) = fn_calls w /\
  outcome run w = Raise (DBError "connection lost") /\
  ~ ((fn_calls (final run w) = (fn_calls w ++ [record])%list <->
      is_Some fn /\ needs_update_spec record w = true) /\
     (fn_calls (final run w) <> (fn_calls w ++ [record])%list ->
      outcome run w = Ok [])).
Proof.
  split; [split; [by eexists|reflexivity]|].
  split; [reflexivity|]. split; [reflexivity|].
  intros [_ H]. assert (Hne : @nil Vulnerability <> [ex_vuln "CVE-1"]) by done.
  specialize (H Hne). vm_compute in H. discriminate.
Qed.

(** * Further properties of the module *)

(** ** The registry: registration and lookup *)

Lemma lower_ascii_idemp (c : ascii) : lower_ascii (lower_ascii c) = lower_ascii c.
Proof. destruct c as [[] [] [] [] [] [] [] []]; reflexivity. Qed.

Lemma lower_idemp (s : string) : lower (lower s) = lower s.
Proof.
  induction s as [|c s IH]; simpl; [done|]. by rewrite lower_ascii_idemp, IH.
Qed.

Lemma dict_get_set_eq {V : Type} (d : list (string * V)) (k : string) (v : V) :
  dict_get (dict_set d k v) k = Some v.
Proof.
  induction d as [|[k' v'] d IH]; simpl.
  - by rewrite decide_True.
  - destruct (decide (k' = k)) as [->|Hne]; simpl.
    + by rewrite decide_True.
    + by rewrite decide_False.
Qed.

Lemma dict_get_set_ne {V : Type} (d : list (string * V)) (k k' : string) (v : V) :
  k <> k' -> dict_get (dict_set d k v) k' = dict_get d k'.
Proof.
  intros Hne. induction d as [|[k0 v0] d IH]; simpl.
  - by rewrite decide_False.
  - destruct (decide (k0 = k)) as [->|Hne0]; simpl.
    + by rewrite !decide_False.
    + destruct (decide (k0 = k')); [done|apply IH].
Qed.

Lemma dict_keys_set {V : Type} (d : list (string * V)) (k : string) (v : V) :
  dict_keys (dict_set d k v)
  = if decide (k ∈ dict_keys d) then dict_keys d else (dict_keys d ++ [k])%list.
Proof.
  unfold dict_keys. induction d as [|[k0 v0] d IH]; [done|].
  simpl dict_set. destruct (decide (k0 = k)) as [->|Hne]; rewrite !fmap_cons.
  - simpl. rewrite decide_True; [done|]. apply list_elem_of_here.
  - rewrite IH. simpl. destruct (decide (k ∈ d.*1)) as [Hin|Hnin].
    + rewrite decide_True; [done|]. by apply list_elem_of_further.
    + rewrite decide_False; [done|].
      intros [Heq|Hin]%elem_of_cons; [by apply Hne|by apply Hnin].
Qed.

(** X1.  Registration and lookup round trip.  Once a class is registered
    under a feed name, looking up that name returns the class; and for
    names of ASCII characters, so does looking up any name that differs
    from it in the case of its letters only. *)
Theorem registered_class_is_found (reg : Registry) (cls : FeedCls)
    (feed_name lookup_name : string) :
  exists reg',
    FeedMeta.__init__ (Some reg) cls (Some feed_name) = Some reg' /\
    FeedMeta.get_feed_by_name reg' feed_name = Ok cls /\
    (is_ascii feed_name = true -> is_ascii lookup_name = true ->
     lower lookup_name = lower feed_name ->
     FeedMeta.get_feed_by_name reg' lookup_name = Ok cls).
Proof.
  eexists. split; [reflexivity|].
  unfold FeedMeta.get_feed_by_name. split.
  - by rewrite dict_get_set_eq.
  - intros _ _ Hlow. rewrite Hlow. by rewrite dict_get_set_eq.
Qed.

Lemma registered_class_is_found_witness :
  exists reg',
    FeedMeta.__init__ (Some module_registry) PackagesFeedCls (Some "NvdV2")
      = Some reg' /\
    FeedMeta.get_feed_by_name reg' "NVDv2" = Ok PackagesFeedCls.
Proof.
  destruct (registered_class_is_found module_registry PackagesFeedCls
              "NvdV2" "NVDv2") as (reg' & Hreg & _ & Hfound).
  exists reg'. split; [exact Hreg|].
  apply Hfound; reflexivity.
Defined.

(** X2.  For names of ASCII characters, registering a class leaves every
    other registered name as it was: a name that was found before, and that
    differs from the new feed name in more than the case of its letters, is
    answered with the same class afterwards. *)
Theorem registration_keeps_other_names (reg reg' : Registry) (cls found : FeedCls)
    (feed_name lookup_name : string) :
  is_ascii feed_name = true -> is_ascii lookup_name = true ->
  FeedMeta.__init__ (Some reg) cls (Some feed_name) = Some reg' ->
  lower lookup_name <> lower feed_name ->
  dict_get reg (lower lookup_name) = Some found ->
  FeedMeta.get_feed_by_name reg' lookup_name = Ok found.
Proof.
  intros _ _ [= <-] Hne Hget. unfold FeedMeta.get_feed_by_name.
  rewrite dict_get_set_ne by done. by rewrite Hget.
Qed.

Lemma registration_keeps_other_names_witness :
  FeedMeta.get_feed_by_name
    (dict_set module_registry (lower "NvdV2") PackagesFeedCls) "VulnDB"
  = Ok VulnDBFeedCls.
Proof.
  apply (registration_keeps_other_names module_registry _ PackagesFeedCls
           VulnDBFeedCls "NvdV2" "VulnDB");
    [reflexivity|reflexivity|reflexivity|discriminate|reflexivity].
Defined.

(** X3.  The registered names never repeat and hold no capital letter
    [A]-[Z]: registering a class under a name of ASCII characters, a new
    name or one already taken, keeps the list of names free of duplicates
    and of these capitals, and the name registered, with its capitals
    folded, is among them. *)
Theorem registration_keeps_names_distinct (reg reg' : Registry) (cls : FeedCls)
    (feed_name : string) :
  is_ascii feed_name = true ->
  FeedMeta.__init__ (Some reg) cls (Some feed_name) = Some reg' ->
  NoDup (FeedMeta.registered_feed_names reg) ->
  Forall (fun n => lower n = n) (FeedMeta.registered_feed_names reg) ->
  NoDup (FeedMeta.registered_feed_names reg') /\
  Forall (fun n => lower n = n) (FeedMeta.registered_feed_names reg') /\
  lower feed_name ∈ FeedMeta.registered_feed_names reg'.
Proof.
  intros _ [= <-] Hnd Hlow. unfold FeedMeta.registered_feed_names in *.
  rewrite dict_keys_set.
  destruct (decide (lower feed_name ∈ dict_keys reg)) as [Hin|Hnin].
  - done.
  - split; [|split].
    + apply NoDup_app. split; [done|]. split; [|apply NoDup_singleton].
      intros x Hx ->%list_elem_of_singleton. by apply Hnin.
    + apply Forall_app. split; [done|]. apply Forall_singleton, lower_idemp.
    + apply elem_of_app. right. apply list_elem_of_here.
Qed.

Lemma registration_keeps_names_distinct_witness :
  NoDup (FeedMeta.registered_feed_names
           (dict_set module_registry (lower "Packages") NvdV2FeedCls)) /\
  "packages" ∈ FeedMeta.registered_feed_names
                 (dict_set module_registry (lower "Packages") NvdV2FeedCls).
Proof.
  destruct (registration_keeps_names_distinct module_registry _ NvdV2FeedCls
              "Packages" eq_refl eq_refl) as (Hnd & _ & Hin).
  - apply (bool_decide_unpack _). vm_compute. exact I.
  - vm_compute. repeat constructor.
  - split; [exact Hnd|exact Hin].
Defined.

(** X4.  [get_feed_by_name] raises exactly when the registry is empty, and
    then it raises [KeyError] with the name as it was given. *)
Theorem get_feed_by_name_raises_iff_empty (registry : Registry) (name : string) :
  (exists e, FeedMeta.get_feed_by_name registry name = Raise e) <->
  registry = [].
Proof.
  split.
  - intros [e He]. by apply get_feed_by_name_KeyError in He as [? _].
  - intros ->. by eexists.
Qed.

(** ** Match-equivalence, further *)

Lemma match_equivalent_spec_trans (a b c : Vulnerability) :
  match_equivalent_spec a b = true -> match_equivalent_spec b c = true ->
  match_equivalent_spec a c = true.
Proof.
  unfold match_equivalent_spec.
  rewrite !andb_true_iff, !bool_decide_eq_true.
  intros [[-> ->] ->] [[-> ->] ->]. done.
Qed.

(** X5.  On records match-equivalence is transitive: if the function
    returns [True] for [(a, b)] and for [(b, c)], it returns [True] for
    [(a, c)].  With C8 it is an equivalence relation on records. *)
Theorem are_match_equivalent_trans (a b c : Vulnerability) (w1 w2 w3 : World) :
  outcome (VulnerabilityFeed._are_match_equivalent (Some a) (Some b)) w1 = Ok true ->
  outcome (VulnerabilityFeed._are_match_equivalent (Some b) (Some c)) w2 = Ok true ->
  outcome (VulnerabilityFeed._are_match_equivalent (Some a) (Some c)) w3 = Ok true.
Proof.
  rewrite !are_match_equivalent_records. intros [= Hab] [= Hbc].
  by rewrite (match_equivalent_spec_trans a b c).
Qed.

Lemma are_match_equivalent_trans_witness :
  outcome (VulnerabilityFeed._are_match_equivalent
             (Some (mk_Vulnerability "CVE-1" "debian:10" [] "low"))
             (Some (mk_Vulnerability "CVE-1" "debian:10" [] "high")))
    (ex_world []) = Ok true.
Proof.
  apply (are_match_equivalent_trans _ (ex_vuln "CVE-1") _ (ex_world [])
           (ex_world [])); reflexivity.
Defined.

(** X6.  Match-equivalence looks at nothing but the [id], the
    [namespace_name] and the set of [(name, epochless_version, version)]
    triples: two records that agree on these are equivalent, however their
    other columns differ, in whatever order their [fixed_in] rows come, and
    however often a triple is repeated. *)
Theorem are_match_equivalent_ignores_the_rest (a b : Vulnerability) (w : World) :
  vuln_id a = vuln_id b ->
  vuln_namespace_name a = vuln_namespace_name b ->
  (forall name ev v,
     (exists f, f ∈ vuln_fixed_in a /\
                (fix_name f, fix_epochless_version f, fix_version f) = (name, ev, v))
     <->
     (exists f, f ∈ vuln_fixed_in b /\
                (fix_name f, fix_epochless_version f, fix_version f) = (name, ev, v))) ->
  outcome (VulnerabilityFeed._are_match_equivalent (Some a) (Some b)) w = Ok true.
Proof.
  intros Hid Hns Hfix. rewrite are_match_equivalent_records. f_equal.
  apply match_equivalent_spec_true. split; [done|]. split; [done|].
  apply symmetric_difference_empty. apply set_eq. intros [[name ev] v].
  unfold VulnerabilityFeed.normalized_fixes.
  rewrite !elem_of_list_to_set, !list_elem_of_fmap.
  split; intros (f & Heq & Hin).
  - destruct (proj1 (Hfix name ev v)) as (f' & Hin' & Heq'); [by exists f|].
    by exists f'.
  - destruct (proj2 (Hfix name ev v)) as (f' & Hin' & Heq'); [by exists f|].
    by exists f'.
Qed.

Lemma are_match_equivalent_ignores_the_rest_witness :
  let fix1 := mk_FixedArtifact "pkg" "1.0" "1.0-1" "debian:10" in
  let fix2 := mk_FixedArtifact "lib" "2.0" "1:2.0" "debian:10" in
  outcome (VulnerabilityFeed._are_match_equivalent
             (Some (mk_Vulnerability "CVE-1" "debian:10" [fix1; fix2] "low"))
             (Some (mk_Vulnerability "CVE-1" "debian:10" [fix2; fix1; fix2] "high")))
    (ex_world []) = Ok true.
Proof.
  apply are_match_equivalent_ignores_the_rest; [reflexivity|reflexivity|].
  intros name ev v. simpl. split; intros (f & Hin & Heq); exists f; split;
    try exact Heq; revert Hin; rewrite !elem_of_cons, !elem_of_nil; tauto.
Defined.

(** X7.  A change in the set of fix triples is noticed: if some triple of
    [a]'s [fixed_in] rows occurs in none of [b]'s, the function returns
    [False]. *)
Theorem are_match_equivalent_sees_fix_change (a b : Vulnerability)
    (f : FixedArtifact) (w : World) :
  f ∈ vuln_fixed_in a ->
  (forall f', f' ∈ vuln_fixed_in b ->
     (fix_name f', fix_epochless_version f', fix_version f')
     <> (fix_name f, fix_epochless_version f, fix_version f)) ->
  outcome (VulnerabilityFeed._are_match_equivalent (Some a) (Some b)) w = Ok false /\
  outcome (VulnerabilityFeed._are_match_equivalent (Some b) (Some a)) w = Ok false.
Proof.
  intros Hin Hnot.
  assert (Hab : match_equivalent_spec a b = false).
  { apply not_true_is_false. intros (_ & _ & Hd)%match_equivalent_spec_true.
    apply (proj1 (symmetric_difference_empty _ _)) in Hd.
    assert (Hf : (fix_name f, fix_epochless_version f, fix_version f)
                 ∈ VulnerabilityFeed.normalized_fixes (vuln_fixed_in a)).
    { unfold VulnerabilityFeed.normalized_fixes.
      rewrite elem_of_list_to_set, list_elem_of_fmap. by exists f. }
    rewrite Hd in Hf. unfold VulnerabilityFeed.normalized_fixes in Hf.
    rewrite elem_of_list_to_set, list_elem_of_fmap in Hf.
    destruct Hf as (f' & Heq & Hin'). by apply (Hnot f' Hin'). }
  rewrite !are_match_equivalent_records.
  by rewrite <- (match_equivalent_spec_sym a b), Hab.
Qed.

Lemma are_match_equivalent_sees_fix_change_witness :
  outcome (VulnerabilityFeed._are_match_equivalent
             (Some (mk_Vulnerability "CVE-1" "debian:10"
                      [mk_FixedArtifact "pkg" "1.0" "1.0-2" "debian:10"] ""))
             (Some (mk_Vulnerability "CVE-1" "debian:10"
                      [mk_FixedArtifact "pkg" "1.0" "1.0-1" "debian:10"] "")))
    (ex_world []) = Ok false.
Proof.
  refine (proj1 (are_match_equivalent_sees_fix_change _ _
                   (mk_FixedArtifact "pkg" "1.0" "1.0-2" "debian:10") _ _ _)).
  - simpl. apply list_elem_of_here.
  - simpl. intros f' ->%list_elem_of_singleton. discriminate.
Defined.

(** ** What a run leaves alone *)

Lemma unchanged_ret {X A : Type} (proj : World -> X) (a : A) :
  unchanged proj (ret a).
Proof. done. Qed.
Lemma unchanged_raise {X A : Type} (proj : World -> X) (e : exn) :
  unchanged proj (@raise A e).
Proof. done. Qed.
Lemma unchanged_lift {X A : Type} (proj : World -> X) (r : Res A) :
  unchanged proj (fun w => (r, w)).
Proof. done. Qed.
Lemma unchanged_bind {X A B : Type} (proj : World -> X) (m : M A) (k : A -> M B) :
  unchanged proj m -> (forall a, unchanged proj (k a)) -> unchanged proj (bind m k).
Proof.
  intros Hm Hk w. specialize (Hm w). unfold bind.
  destruct (m w) as [[a|e] w']; simpl in *; [|done]. by rewrite Hk.
Qed.
Lemma unchanged_try_except {X A : Type} (proj : World -> X) (m : M A)
    (h : exn -> M A) :
  unchanged proj m -> (forall e, unchanged proj (h e)) ->
  unchanged proj (try_except m h).
Proof.
  intros Hm Hh w. specialize (Hm w). unfold try_except.
  destruct (m w) as [[a|e] w']; simpl in *; [done|]. by rewrite Hh.
Qed.
Lemma unchanged_try_finally {X A B : Type} (proj : World -> X) (m : M A)
    (f : M B) :
  unchanged proj m -> unchanged proj f -> unchanged proj (try_finally m f).
Proof.
  intros Hm Hf w. specialize (Hm w). unfold try_finally.
  destruct (m w) as [r w']; simpl in *. specialize (Hf w').
  destruct (f w') as [[b|e] w'']; simpl in *; destruct r; simpl; congruence.
Qed.

(** A step that is one of the primitive operations: settled by running it. *)
Ltac unchanged_prim :=
  let w := fresh "w" in
  intros w;
  unfold log, time_time, utcnow, io, modify_session, db_refresh, db_merge,
    db_commit, db_rollback, db_flush, db_add, query_vulnerability,
    delete_records, delete_fixed_artifacts, delete_vulnerabilities,
    delete_records_in, count_records, count_records_in, count_vulnerabilities,
    call_flush_helper, call_flush_helper_of_self, call_processing_fn,
    record_event, add_event,
    assign_last_sync, assign_feed_timestamps,
    ThreadLocalFeedGroupNameCache.add, ThreadLocalFeedGroupNameCache.flush;
  unfold try_except, bind, io, time_time, modify_session, get_world, modify,
    raise, ret;
  simpl; repeat case_match; simplify_eq/=; done.

Create HintDb unchanged.

Ltac unchanged_step :=
  lazymatch goal with
  | |- unchanged _ (bind _ _) => apply unchanged_bind; [|intros ?]
  | |- unchanged _ (try_except _ _) => apply unchanged_try_except; [|intros ?]
  | |- unchanged _ (try_finally _ _) => apply unchanged_try_finally
  | |- unchanged _ (ret _) => apply unchanged_ret
  | |- unchanged _ (raise _) => apply unchanged_raise
  | |- unchanged _ (fun w => (_, w)) => apply unchanged_lift
  | |- unchanged _ (match ?x with _ => _ end) => destruct x
  | |- unchanged _ (if ?x then _ else _) => destruct x
  | |- unchanged _ _ => first [solve [auto with unchanged] | unchanged_prim]
  end.
Ltac unchanged_tac := repeat unchanged_step.

Lemma unchanged_notify_event_db ev c :
  unchanged (fun w => (committed w, session w)) (notify_event ev c).
Proof. unfold notify_event. unchanged_tac. Qed.

Lemma unchanged_group_by_name {T : Type} (self : Feed T) name :
  unchanged (fun w => (committed w, session w, events w, cache w, fn_calls w))
    (AnchoreServiceFeed.group_by_name self name).
Proof. unfold AnchoreServiceFeed.group_by_name. unchanged_tac. Qed.

(** X8.  [group_by_name] returns the first group of that name: [None]
    exactly when the feed object holds no metadata or none of its groups
    has the name; otherwise the group returned has the name and no group
    before it in [self.metadata.groups] has.  It never raises and changes
    nothing in the session or the database. *)
Theorem group_by_name_first_match {T : Type} (self : Feed T) (name : string)
    (w : World) :
  let groups := metadata_groups (metadata self) w in
  let run := AnchoreServiceFeed.group_by_name self name in
  exists found,
    outcome run w = Ok found /\
    (found = None <-> forall g, g ∈ groups -> group_name g <> name) /\
    (forall g, found = Some g ->
       group_name g = name /\
       exists before after,
         groups = (before ++ g :: after)%list /\
         forall g', g' ∈ before -> group_name g' <> name) /\
    session (final run w) = session w /\
    committed (final run w) = committed w.
Proof.
  intros groups run. subst run.
  exists (head (filter (fun x => group_name x = name) groups)).
  split; [|split; [|split]].
  - unfold AnchoreServiceFeed.group_by_name, outcome, bind, get_world. simpl.
    fold groups. by destruct (1 <? _)%nat.
  - clear. induction groups as [|g0 gs IH]; simpl.
    + split; [by intros _ g ?%elem_of_nil|done].
    + rewrite filter_cons. destruct (decide (group_name g0 = name)) as [Heq|Hne].
      * split; [done|]. intros H. exfalso. apply (H g0); [apply list_elem_of_here|done].
      * rewrite IH. split.
        -- intros H g [->|Hin]%elem_of_cons; [done|by apply H].
        -- intros H g Hin. apply H. by apply list_elem_of_further.
  - clear. intros g. induction groups as [|g0 gs IH]; simpl; [done|].
    rewrite filter_cons. destruct (decide (group_name g0 = name)) as [Heq|Hne].
    + intros [= <-]. split; [done|]. exists [], gs. split; [done|].
      by intros g' ?%elem_of_nil.
    + intros Hg. destruct (IH Hg) as (Hname & before & after & -> & Hbefore).
      split; [done|]. exists (g0 :: before), after. split; [done|].
      intros g' [->|Hin]%elem_of_cons; [done|by apply Hbefore].
  - pose proof (unchanged_group_by_name self name w) as H.
    unfold final. by injection H as ? ? ? ? ?.
Qed.

(** X9.  [notify_event] never raises, whatever the client does: it hands
    the event over exactly once (one entry is added to the events, for this
    event), posted when a client is given and its [add_event] returns,
    otherwise kept in the log only, and it leaves the session and the
    database alone. *)
Theorem notify_event_never_raises (ev : Event) (client : option CatalogClient)
    (w : World) :
  let run := notify_event ev client in
  outcome run w = Ok tt /\
  (exists d,
     events (final run w) = (events w ++ [(ev, d)])%list /\
     (client = None -> d = Logged) /\
     (d = Logged \/ (exists e, d = PostFailed e) ->
      exists lvl msg, logs (final run w) = (logs w ++ [(lvl, msg)])%list)) /\
  session (final run w) = session w /\
  committed (final run w) = committed w.
Proof.
  intros run. subst run. split; [|split].
  - unfold outcome.
    by rewrite (run_unit_never_raises _ w (never_raises_notify_event ev client)).
  - unfold notify_event, final. destruct client as [c|]; simpl.
    + unfold try_except, add_event, bind, io, record_event, log, modify.
      destruct (faults w) as [|[e|] f]; simpl; eexists; split; try done;
        split; try done.
      * intros [?|[? ?]]; done.
      * intros _. by eexists _, _.
      * intros [?|[? ?]]; done.
    + exists Logged. split; [done|]. split; [done|]. intros _. by eexists _, _.
  - pose proof (unchanged_notify_event_db ev client w) as H.
    unfold final. by injection H as ? ?.
Qed.

(** ** The feed timestamps *)

(** What a timestamp update that returns has done. *)
Lemma update_timestamps_run {T : Type} (self : Feed T) (w : World) :
  let run := AnchoreServiceFeed._update_last_full_sync_timestamp self in
  outcome run w = Ok tt ->
  exists k row t,
    metadata self = Some k /\
    feeds (session w) !! k = Some row /\
    feeds (committed (final run w)) !! k
      = Some (mk_FeedMetadata (feed_name row) (Some (mk_datetime t None))
                (Some (mk_datetime t None)) (feed_groups row)) /\
    session (final run w) = committed (final run w).
Proof.
  intros run. subst run.
  unfold AnchoreServiceFeed._update_last_full_sync_timestamp, outcome, final,
    db_refresh, utcnow, assign_feed_timestamps, db_commit, db_rollback, log,
    modify_session.
  unfold try_except, bind, io, time_time, get_world, modify, raise, ret.
  destruct (metadata self) as [k|]; simpl; [|done].
  destruct (faults w) as [|[e1|] [|[e2|] f]] eqn:Hf; simpl; try done.
  all: destruct (feeds (session w) !! k) as [row|] eqn:Hrow; simpl; try done.
  all: destruct (clock w) as [|t c]; simpl; rewrite ?Hf; simpl; try done.
  all: intros _; eexists k, row, _; split; [done|]; split; [exact Hrow|];
    split; [|done]; simpl; by rewrite lookup_alter_eq, Hrow.
Qed.

(** X10.  When [_update_last_full_sync_timestamp] returns, the feed object
    holds metadata, and the database holds for that feed row the same
    instant, read off the clock by [utcnow], as [last_update] and as
    [last_full_sync]; name and groups of the row are those the session held
    before the call, so a change of the row that the session had not
    committed is committed with the timestamps; and the session has nothing
    left to commit. *)
Theorem update_timestamps_sets_both {T : Type} (self : Feed T) (w : World) :
  let run := AnchoreServiceFeed._update_last_full_sync_timestamp self in
  outcome run w = Ok tt ->
  exists k row t,
    metadata self = Some k /\
    feeds (session w) !! k = Some row /\
    feeds (committed (final run w)) !! k
      = Some (mk_FeedMetadata (feed_name row) (Some (mk_datetime t None))
                (Some (mk_datetime t None)) (feed_groups row)) /\
    session (final run w) = committed (final run w).
Proof. exact (update_timestamps_run self w). Qed.

Lemma update_timestamps_sets_both_witness :
  feeds (committed
           (final (AnchoreServiceFeed._update_last_full_sync_timestamp ex_feed)
              (mk_World ex_db ex_db [] [1700%Z] [] [] ∅ [])))
    !! "vulnerabilities"
  = Some (mk_FeedMetadata "vulnerabilities" (Some (mk_datetime 1700 None))
            (Some (mk_datetime 1700 None)) [ex_group]).
Proof.
  destruct (update_timestamps_sets_both ex_feed
              (mk_World ex_db ex_db [] [1700%Z] [] [] ∅ []) eq_refl)
    as (k & row & t & Hk & Hrow & Hnew & _).
  injection Hk as <-. rewrite Hnew.
  vm_compute in Hrow. injection Hrow as <-.
  vm_compute in Hnew. injection Hnew as <-. reflexivity.
Defined.

(** A [sync] that returns has run the groups, and then the timestamp update
    without an error; the world it leaves is the one the update leaves. *)
Lemma sync_returns_after_timestamps {T : Type} sync_group (self : Feed T)
    fetched_data full_flush event_client operation_id (w : World)
    (r : FeedSyncResult) :
  outcome (AnchoreServiceFeed.sync sync_group self fetched_data full_flush
             event_client operation_id) w = Ok r ->
  exists p w1,
    sync_until_timestamps sync_group self fetched_data full_flush event_client
      operation_id w = (Ok p, w1) /\
    outcome (AnchoreServiceFeed._update_last_full_sync_timestamp self) w1
      = Ok tt /\
    final (AnchoreServiceFeed.sync sync_group self fetched_data full_flush
             event_client operation_id) w
    = final (AnchoreServiceFeed._update_last_full_sync_timestamp self) w1.
Proof.
  unfold outcome, final. rewrite sync_decompose. unfold bind, ret.
  destruct (sync_until_timestamps _ _ _ _ _ _ w) as [[p|e] w1]; [|done].
  intros Hok. exists p, w1. split; [done|]. revert Hok.
  destruct (AnchoreServiceFeed._update_last_full_sync_timestamp self w1)
    as [[[]|e] w2]; done.
Qed.

(** X11.  Whenever [sync] returns a result, with status [success] or
    [failure], and with or without [full_flush], the feed row in the
    database carries one and the same instant as [last_update] and as
    [last_full_sync]: the timestamps advance even when group syncs failed. *)
Theorem sync_advances_timestamps {T : Type}
    (sync_group : GroupDownloadResult -> bool -> LocalFeedDataRepo ->
                  option string -> M GroupSyncResult)
    (self : Feed T) (fetched_data : LocalFeedDataRepo) (full_flush : bool)
    (event_client : option CatalogClient) (operation_id : option string)
    (w : World) (r : FeedSyncResult) :
  let run := AnchoreServiceFeed.sync sync_group self fetched_data full_flush
               event_client operation_id in
  outcome run w = Ok r ->
  exists k row t,
    metadata self = Some k /\
    feeds (committed (final run w)) !! k = Some row /\
    feed_last_update row = Some t /\
    feed_last_full_sync row = Some t.
Proof.
  intros run. subst run. intros Hok.
  destruct (sync_returns_after_timestamps sync_group self fetched_data
              full_flush event_client operation_id w r Hok)
    as (p & w1 & _ & Hupd & Hfin).
  rewrite Hfin.
  destruct (update_timestamps_run self w1 Hupd)
    as (k & row & t & Hk & _ & Hnew & _).
  eexists k, _, _. split; [done|]. split; [exact Hnew|]. done.
Qed.

Lemma sync_advances_timestamps_witness :
  exists r row,
    outcome (ex_generic_sync ["debian:10"])
      (mk_World ex_db ex_db [None; Some (DBError "connection lost")]
         [10; 20; 30; 40]%Z [] [] ∅ []) = Ok r /\
    fr_status r = "failure" /\
    feeds (committed
             (final (ex_generic_sync ["debian:10"])
                (mk_World ex_db ex_db [None; Some (DBError "connection lost")]
                   [10; 20; 30; 40]%Z [] [] ∅ []))) !! "vulnerabilities"
      = Some row /\
    feed_last_update row = feed_last_full_sync row /\
    is_Some (feed_last_update row).
Proof.
  destruct (sync_advances_timestamps
              (AnchoreServiceFeed._sync_group
                 (AnchoreServiceFeed._flush_group ex_generic_feed)
                 ex_generic_feed)
              ex_generic_feed (ex_repo ["debian:10"]) false None None
              (mk_World ex_db ex_db [None; Some (DBError "connection lost")]
                 [10; 20; 30; 40]%Z [] [] ∅ []) _ eq_refl)
    as (k & row & t & Hk & Hrow & Hu & Hf).
  injection Hk as <-.
  eexists _, row. split; [vm_compute; reflexivity|]. split; [reflexivity|].
  split; [exact Hrow|]. split; [congruence|]. rewrite Hu. by eexists.
Defined.

(** ** The events of a sync *)

Lemma unchanged_final {X A : Type} (proj : World -> X) (m : M A) (w : World) :
  unchanged proj m -> proj (final m w) = proj w.
Proof. intros H. apply H. Qed.

Lemma unchanged_events_group_by_name {T : Type} (self : Feed T) name :
  unchanged events (AnchoreServiceFeed.group_by_name self name).
Proof. unfold AnchoreServiceFeed.group_by_name. unchanged_tac. Qed.

Lemma unchanged_events_load_mapper {T : Type} (self : Feed T) g :
  unchanged events (AnchoreServiceFeed._load_mapper self g).
Proof. unfold AnchoreServiceFeed._load_mapper. unchanged_tac. Qed.

Lemma unchanged_events_getattr {A : Type} obj attr (field : Vulnerability -> A) :
  unchanged events (VulnerabilityFeed.getattr obj attr field).
Proof. unfold VulnerabilityFeed.getattr. unchanged_tac. Qed.

#[local] Hint Resolve unchanged_events_group_by_name
  unchanged_events_load_mapper unchanged_events_getattr : unchanged.

Lemma unchanged_events_are_match_equivalent a b :
  unchanged events (VulnerabilityFeed._are_match_equivalent a b).
Proof. unfold VulnerabilityFeed._are_match_equivalent. unchanged_tac. Qed.

#[local] Hint Resolve unchanged_events_are_match_equivalent : unchanged.

Lemma unchanged_events_update_vulnerability v fn :
  unchanged events (VulnerabilityFeed.update_vulnerability v fn).
Proof. unfold VulnerabilityFeed.update_vulnerability. unchanged_tac. Qed.

Lemma unchanged_events_vuln_flush_group self g op :
  unchanged events (VulnerabilityFeed._flush_group self g op).
Proof. unfold VulnerabilityFeed._flush_group. unchanged_tac. Qed.

Lemma unchanged_events_generic_flush_group {T : Type} (self : Feed T) g op :
  unchanged events (AnchoreServiceFeed._flush_group self g op).
Proof. unfold AnchoreServiceFeed._flush_group. unchanged_tac. Qed.

#[local] Hint Resolve unchanged_events_update_vulnerability
  unchanged_events_vuln_flush_group unchanged_events_generic_flush_group
  : unchanged.

Lemma unchanged_events_update_records fn mapper ctx total items imgs n c :
  unchanged events
    (VulnerabilityFeed.update_records fn mapper ctx total items imgs n c).
Proof.
  revert imgs n c. induction items as [|record rest IH]; intros imgs n c; simpl.
  - apply unchanged_ret.
  - unchanged_tac.
Qed.

Lemma unchanged_events_merge_records mapper ctx total items n c :
  unchanged events
    (AnchoreServiceFeed.merge_records mapper ctx total items n c).
Proof.
  revert n c. induction items as [|record rest IH]; intros n c; simpl.
  - apply unchanged_ret.
  - unchanged_tac.
Qed.

#[local] Hint Resolve unchanged_events_update_records
  unchanged_events_merge_records : unchanged.

Lemma unchanged_events_vuln_sync_group fn self gdr ff fd op :
  unchanged events (VulnerabilityFeed._sync_group fn self gdr ff fd op).
Proof. unfold VulnerabilityFeed._sync_group. unchanged_tac. Qed.

Lemma unchanged_events_generic_sync_group flush_group self gdr ff fd op :
  (forall g op', unchanged events (flush_group g op')) ->
  unchanged events
    (AnchoreServiceFeed._sync_group flush_group self gdr ff fd op).
Proof. intros Hflush. unfold AnchoreServiceFeed._sync_group. unchanged_tac. Qed.

Lemma unchanged_events_update_timestamps {T : Type} (self : Feed T) :
  unchanged events (AnchoreServiceFeed._update_last_full_sync_timestamp self).
Proof.
  unfold AnchoreServiceFeed._update_last_full_sync_timestamp. unchanged_tac.
Qed.

Lemma announce_group_events gdr client op (w : World) :
  exists d,
    events (final (announce_group gdr client op) w)
    = (events w ++ [(FeedGroupSyncStarted (gdr_feed gdr) (gdr_group gdr), d)])%list.
Proof.
  unfold announce_group. rewrite final_bind. simpl.
  apply (notify_event_events _ client
           (final (log INFO
                     (log_msg_ctx op (Some (gdr_feed gdr)) (Some (gdr_group gdr))
                        "Processing group for db update")) w)).
Qed.

(** The loop hands over, per group and in order, a start event and then the
    completion or the failure of that group, as long as [self._sync_group]
    hands over none itself. *)
Lemma sync_groups_bracketed sync_group fetched_data full_flush event_client
    operation_id todo groups failed_count (w : World) :
  (forall gdr ff fd op, unchanged events (sync_group gdr ff fd op)) ->
  exists new,
    events (final (AnchoreServiceFeed.sync_groups sync_group fetched_data
                     full_flush event_client operation_id todo groups
                     failed_count) w)
    = (events w ++ new)%list /\
    bracketed todo new.*1.
Proof.
  intros Hsg. revert groups failed_count w.
  induction todo as [|gdr rest IH]; intros groups failed_count w.
  - exists []. split; [by rewrite app_nil_r|done].
  - unfold final. rewrite sync_groups_cons. cbv zeta.
    destruct (announce_group_events gdr event_client operation_id w)
      as [d1 Hstart].
    pose proof (Hsg gdr full_flush fetched_data None
                  (final (announce_group gdr event_client operation_id) w))
      as Hkeep.
    destruct (sync_group gdr full_flush fetched_data None _)
      as [[new_data|e] w2]; simpl in Hkeep.
    + destruct (notify_event_events
                  (FeedGroupSyncCompleted (gdr_feed gdr) (gdr_group gdr) new_data)
                  event_client w2) as [d2 Hdone].
      destruct (IH (groups ++ [new_data])%list failed_count
                  (final (notify_event
                            (FeedGroupSyncCompleted (gdr_feed gdr)
                               (gdr_group gdr) new_data) event_client) w2))
        as (new & Hnew & Hbr).
      unfold final in *. rewrite Hnew, Hdone, Hkeep, Hstart.
      eexists (_ :: _ :: new). split; [by rewrite <- !app_assoc|].
      simpl. eexists _, _. split; [done|]. split; [left; by eexists|done].
    + destruct (report_failure_events gdr e event_client operation_id w2)
        as [d2 Hfail].
      destruct (IH groups (S failed_count)
                  (final (report_failure gdr e event_client operation_id) w2))
        as (new & Hnew & Hbr).
      unfold final in *. rewrite Hnew, Hfail, Hkeep, Hstart.
      eexists (_ :: _ :: new). split; [by rewrite <- !app_assoc|].
      simpl. eexists _, _. split; [done|]. split; [right; by eexists|done].
Qed.

Lemma sync_until_timestamps_events {T : Type} sync_group (self : Feed T)
    fetched_data full_flush event_client operation_id (w : World) :
  (forall gdr ff fd op, unchanged events (sync_group gdr ff fd op)) ->
  exists new,
    events (final (sync_until_timestamps sync_group self fetched_data full_flush
                     event_client operation_id) w)
    = (events w ++ new)%list /\
    bracketed (AnchoreServiceFeed.fetched_groups self fetched_data) new.*1.
Proof.
  intros Hsg. unfold final, sync_until_timestamps, bind, log, modify, ret.
  pose proof (unchanged_final events time_time w ltac:(unchanged_prim)) as Ht.
  unfold final in Ht.
  destruct (time_time w) as [[t|e] w1] eqn:Hrun; simpl in Ht.
  2: { destruct (never_raises_time_time w) as [a Ha].
       unfold outcome in Ha. by rewrite Hrun in Ha. }
  destruct (sync_groups_bracketed sync_group fetched_data full_flush
              event_client operation_id
              (AnchoreServiceFeed.fetched_groups self fetched_data) [] 0
              (set_logs (logs w1 ++ [(INFO,
                 log_msg_ctx operation_id (__feed_name__ self) None
                   "Starting feed sync")]) w1) Hsg) as (new & Hnew & Hbr).
  unfold final in Hnew. simpl in Hnew. rewrite Ht in Hnew.
  exists new. split; [|done].
  destruct (AnchoreServiceFeed.sync_groups _ _ _ _ _ _ _ _ _) as [[st|e] w3];
    simpl in *; [|done].
  pose proof (unchanged_final events time_time w3 ltac:(unchanged_prim)) as Ht'.
  unfold final in Ht'.
  destruct (time_time w3) as [[t'|e] w4]; simpl in *; congruence.
Qed.

Lemma sync_events_bracketed {T : Type} sync_group (self : Feed T)
    fetched_data full_flush event_client operation_id (w : World) :
  (forall gdr ff fd op, unchanged events (sync_group gdr ff fd op)) ->
  exists new,
    events (final (AnchoreServiceFeed.sync sync_group self fetched_data
                     full_flush event_client operation_id) w)
    = (events w ++ new)%list /\
    bracketed (AnchoreServiceFeed.fetched_groups self fetched_data) new.*1.
Proof.
  intros Hsg.
  destruct (sync_until_timestamps_events sync_group self fetched_data
              full_flush event_client operation_id w Hsg) as (new & Hnew & Hbr).
  exists new. split; [|done]. rewrite <- Hnew.
  unfold final. rewrite sync_decompose. unfold bind, ret.
  destruct (sync_until_timestamps _ _ _ _ _ _ w) as [[p|e] w1]; [|done].
  pose proof (unchanged_events_update_timestamps self w1) as Hupd.
  destruct (AnchoreServiceFeed._update_last_full_sync_timestamp self w1)
    as [[[]|e] w2]; done.
Qed.

(** [VulnerabilityFeed.sync] first publishes the group names, or clears
    the cache, which changes the cache only, and then runs the generic sync
    under its [finally]. *)
Lemma vulnerability_sync_prelude fn (self : Feed Vulnerability) fetched_data
    full_flush event_client operation_id (w : World) :
  exists w0,
    events w0 = events w /\
    VulnerabilityFeed.sync fn self fetched_data full_flush event_client
      operation_id w
    = (r <- try_finally
              (AnchoreServiceFeed.sync (VulnerabilityFeed._sync_group fn self)
                 self fetched_data full_flush event_client None)
              ThreadLocalFeedGroupNameCache.flush ;;
       ret r.1) w0.
Proof.
  unfold VulnerabilityFeed.sync. unfold bind at 1, get_world. cbn beta iota.
  destruct (metadata self) as [k|]; [destruct (metadata_groups (Some k) w)|];
    unfold bind at 1, ThreadLocalFeedGroupNameCache.add,
      ThreadLocalFeedGroupNameCache.flush at 1, modify at 1; cbn beta iota;
    (eexists; split; [|reflexivity]; done).
Qed.

(** X12.  The events of a sync.  The vulnerability sync, and the generic
    sync with the generic flush, hand over events for the groups of the
    manifest that belong to this feed and for nothing else: in the order of
    the manifest, each group gets a [FeedGroupSyncStarted] directly followed
    by its [FeedGroupSyncCompleted] or its [FeedGroupSyncFailed].  Earlier
    events stay as they are, and this holds whether the sync returns or
    raises. *)
Theorem sync_brackets_each_group
    (fn : option VulnProcessingFn) (vfeed : Feed Vulnerability)
    (gfeed : Feed Entity) (fetched_data : LocalFeedDataRepo)
    (full_flush : bool) (event_client : option CatalogClient)
    (operation_id : option string) (w : World) :
  (exists new,
     events (final (VulnerabilityFeed.sync fn vfeed fetched_data full_flush
                      event_client operation_id) w)
     = (events w ++ new)%list /\
     bracketed (AnchoreServiceFeed.fetched_groups vfeed fetched_data) new.*1) /\
  (exists new,
     events (final (AnchoreServiceFeed.sync
                      (AnchoreServiceFeed._sync_group
                         (AnchoreServiceFeed._flush_group gfeed) gfeed)
                      gfeed fetched_data full_flush event_client operation_id) w)
     = (events w ++ new)%list /\
     bracketed (AnchoreServiceFeed.fetched_groups gfeed fetched_data) new.*1).
Proof.
  split.
  - destruct (vulnerability_sync_prelude fn vfeed fetched_data full_flush
                event_client operation_id w) as (w0 & Hev0 & Hrun).
    destruct (sync_events_bracketed
                (VulnerabilityFeed._sync_group fn vfeed) vfeed fetched_data
                full_flush event_client None w0
                (unchanged_events_vuln_sync_group fn vfeed))
      as (new & Hnew & Hbr).
    exists new. split; [|done]. rewrite <- Hev0, <- Hnew.
    unfold final. rewrite Hrun.
    unfold bind, try_finally, ThreadLocalFeedGroupNameCache.flush, modify, ret.
    destruct (AnchoreServiceFeed.sync _ _ _ _ _ _ w0) as [[r|e] w1]; done.
  - apply sync_events_bracketed. intros gdr ff fd op.
    apply unchanged_events_generic_sync_group. intros g op'.
    apply unchanged_events_generic_flush_group.
Qed.

(** ** The manifest *)

(** X13.  A sync whose manifest lists no group of this feed, and which
    returns, reports [success] for the feed with an empty list of groups,
    and hands over no event; [self._sync_group] plays no part in it. *)
Theorem sync_nothing_fetched {T : Type}
    (sync_group : GroupDownloadResult -> bool -> LocalFeedDataRepo ->
                  option string -> M GroupSyncResult)
    (self : Feed T) (fetched_data : LocalFeedDataRepo) (full_flush : bool)
    (event_client : option CatalogClient) (operation_id : option string)
    (w : World) (r : FeedSyncResult) :
  let run := AnchoreServiceFeed.sync sync_group self fetched_data full_flush
               event_client operation_id in
  AnchoreServiceFeed.fetched_groups self fetched_data = [] ->
  outcome run w = Ok r ->
  fr_feed r = __feed_name__ self /\
  fr_status r = "success" /\
  fr_groups r = [] /\
  events (final run w) = events w.
Proof.
  intros run Hnone. subst run.
  unfold outcome, final, AnchoreServiceFeed.sync. rewrite Hnone. simpl.
  unfold bind, log, modify, ret.
  pose proof (unchanged_final events time_time w ltac:(unchanged_prim)) as Ht.
  unfold final in Ht.
  destruct (time_time w) as [[t|e] w1]; simpl in *; [|done].
  match goal with
  | |- context [time_time ?w'] =>
      pose proof (unchanged_final events time_time w' ltac:(unchanged_prim))
        as Ht';
      unfold final in Ht'; destruct (time_time w') as [[t'|e] w2]
  end; simpl in *; [|done].
  pose proof (unchanged_events_update_timestamps self w2) as Hupd.
  destruct (AnchoreServiceFeed._update_last_full_sync_timestamp self w2)
    as [[[]|e] w3]; simpl in *; [|done].
  intros [= <-]. simpl. repeat split; congruence.
Qed.

Lemma sync_nothing_fetched_witness :
  exists r,
    outcome (ex_generic_sync []) (ex_world []) = Ok r /\
    fr_status r = "success" /\ fr_groups r = [].
Proof.
  eexists. split; [vm_compute; reflexivity|].
  destruct (sync_nothing_fetched
              (AnchoreServiceFeed._sync_group
                 (AnchoreServiceFeed._flush_group ex_generic_feed)
                 ex_generic_feed)
              ex_generic_feed (ex_repo []) false None None (ex_world []) _
              eq_refl eq_refl) as (_ & Hs & Hg & _).
  split; [exact Hs|exact Hg].
Defined.

Lemma sync_groups_ext sync_group sync_group' fetched_data fetched_data'
    full_flush event_client operation_id todo groups failed_count (w : World) :
  (forall gdr w', sync_group gdr full_flush fetched_data None w'
                  = sync_group' gdr full_flush fetched_data' None w') ->
  AnchoreServiceFeed.sync_groups sync_group fetched_data full_flush
    event_client operation_id todo groups failed_count w
  = AnchoreServiceFeed.sync_groups sync_group' fetched_data' full_flush
      event_client operation_id todo groups failed_count w.
Proof.
  intros Hsg. revert groups failed_count w.
  induction todo as [|gdr rest IH]; intros groups failed_count w; [done|].
  rewrite !sync_groups_cons. cbv zeta. rewrite Hsg.
  destruct (sync_group' gdr full_flush fetched_data' None _)
    as [[new_data|e] w2]; apply IH.
Qed.

Lemma sync_ext {T : Type} sync_group sync_group' (self : Feed T)
    fetched_data fetched_data' full_flush event_client operation_id
    (w : World) :
  AnchoreServiceFeed.fetched_groups self fetched_data'
    = AnchoreServiceFeed.fetched_groups self fetched_data ->
  (forall gdr w', sync_group gdr full_flush fetched_data None w'
                  = sync_group' gdr full_flush fetched_data' None w') ->
  AnchoreServiceFeed.sync sync_group self fetched_data full_flush event_client
    operation_id w
  = AnchoreServiceFeed.sync sync_group' self fetched_data' full_flush
      event_client operation_id w.
Proof.
  intros Hf Hsg. unfold AnchoreServiceFeed.sync. rewrite Hf.
  unfold bind at 1 6. destruct (time_time w) as [[t|e] w1]; [|done].
  unfold bind at 1 5, log, modify.
  unfold bind at 1 4.
  by rewrite (sync_groups_ext sync_group sync_group' fetched_data
                fetched_data' full_flush event_client operation_id _ _ _ _ Hsg).
Qed.

Lemma fetched_groups_own_downloads {T : Type} (self : Feed T) fetched_data :
  AnchoreServiceFeed.fetched_groups self (own_downloads self fetched_data)
  = AnchoreServiceFeed.fetched_groups self fetched_data.
Proof.
  unfold own_downloads, AnchoreServiceFeed.fetched_groups. simpl.
  induction (download_results fetched_data) as [|x l IH]; [done|].
  rewrite filter_cons. case_decide as Hx; [|exact IH].
  rewrite filter_cons. rewrite decide_True by exact Hx. by rewrite IH.
Qed.

(** X14.  Manifest entries of other feeds have no influence on a sync:
    the vulnerability sync, and the generic sync with any [_flush_group],
    give the same outcome and leave the same world when the manifest is cut
    down to the entries of this feed. *)
Theorem sync_ignores_other_feeds
    (fn : option VulnProcessingFn) (vfeed : Feed Vulnerability)
    (flush_group : FeedGroupMetadata -> option string -> M unit)
    (gfeed : Feed Entity) (fetched_data : LocalFeedDataRepo)
    (full_flush : bool) (event_client : option CatalogClient)
    (operation_id : option string) (w : World) :
  VulnerabilityFeed.sync fn vfeed fetched_data full_flush event_client
    operation_id w
  = VulnerabilityFeed.sync fn vfeed (own_downloads vfeed fetched_data)
      full_flush event_client operation_id w /\
  AnchoreServiceFeed.sync (AnchoreServiceFeed._sync_group flush_group gfeed)
    gfeed fetched_data full_flush event_client operation_id w
  = AnchoreServiceFeed.sync (AnchoreServiceFeed._sync_group flush_group gfeed)
      gfeed (own_downloads gfeed fetched_data) full_flush event_client
      operation_id w.
Proof.
  split.
  - assert (Hsync :
      forall w', AnchoreServiceFeed.sync (VulnerabilityFeed._sync_group fn vfeed)
                   vfeed fetched_data full_flush event_client None w'
               = AnchoreServiceFeed.sync (VulnerabilityFeed._sync_group fn vfeed)
                   vfeed (own_downloads vfeed fetched_data) full_flush
                   event_client None w').
    { intros w'. apply sync_ext; [apply fetched_groups_own_downloads|done]. }
    unfold VulnerabilityFeed.sync, bind, get_world, try_finally.
    cbn beta iota.
    destruct (metadata vfeed) as [k|]; [destruct (metadata_groups (Some k) w)|];
      unfold ThreadLocalFeedGroupNameCache.add,
        ThreadLocalFeedGroupNameCache.flush, modify; cbn beta iota;
      by rewrite Hsync.
  - apply sync_ext; [apply fetched_groups_own_downloads|done].
Qed.

(** ** The result of a group sync *)

Lemma returns_ret {A : Type} (a : A) (P : A -> Prop) : P a -> returns (ret a) P.
Proof. intros H w a' [= <-]. exact H. Qed.

Lemma returns_raise {A : Type} (e : exn) (P : A -> Prop) : returns (raise e) P.
Proof. by intros w a. Qed.

Lemma returns_any {A : Type} (m : M A) : returns m (fun _ => True).
Proof. by intros w a _. Qed.

Lemma returns_bind {A B : Type} (m : M A) (k : A -> M B) (Q : A -> Prop)
    (P : B -> Prop) :
  returns m Q -> (forall a, Q a -> returns (k a) P) -> returns (bind m k) P.
Proof.
  intros Hm Hk w b. specialize (Hm w). unfold outcome, bind in *.
  destruct (m w) as [[a|e] w']; [|done]. intros Hb.
  by apply (Hk a (Hm a eq_refl) w' b).
Qed.

Lemma returns_seq {A B : Type} (m : M A) (k : A -> M B) (P : B -> Prop) :
  (forall a, returns (k a) P) -> returns (bind m k) P.
Proof. intros Hk. apply (returns_bind m k _ P (returns_any m)). auto. Qed.

Lemma returns_try_except {A : Type} (m : M A) (h : exn -> M A) (P : A -> Prop) :
  returns m P -> (forall e, returns (h e) P) -> returns (try_except m h) P.
Proof.
  intros Hm Hh w a. specialize (Hm w). unfold outcome, try_except in *.
  destruct (m w) as [[a'|e] w']; [by apply Hm|]. apply Hh.
Qed.

Lemma returns_try_finally {A B : Type} (m : M A) (f : M B) (P : A -> Prop) :
  returns m P -> returns (try_finally m f) (fun ab => P ab.1).
Proof.
  intros Hm w ab. specialize (Hm w). unfold outcome, try_finally in *.
  destruct (m w) as [[a|e] w']; destruct (f w') as [[b|e'] w'']; simpl;
    try done.
  intros [= <-]. by apply Hm.
Qed.





Lemma unchanged_data_db_refresh md : unchanged data_of (db_refresh md).
Proof. unfold data_of. unchanged_prim. Qed.

Lemma unchanged_data_group_by_name {T : Type} (self : Feed T) name :
  unchanged data_of (AnchoreServiceFeed.group_by_name self name).
Proof. unfold data_of, AnchoreServiceFeed.group_by_name. unchanged_tac. Qed.

Lemma vuln_sync_group_failure_run fn vfeed gdr full_flush local_repo
    operation_id (w w' : World) (r : GroupSyncResult) :
  VulnerabilityFeed._sync_group fn vfeed gdr full_flush local_repo operation_id w
    = (Ok r, w') ->
  gr_status r = "failure" ->
  data_of w' = data_of w.
Proof.
  unfold VulnerabilityFeed._sync_group. cbv zeta.
  unfold bind at 1.
  pose proof (unchanged_data_db_refresh (metadata vfeed) w) as Hr.
  destruct (db_refresh (metadata vfeed) w) as [[[]|e] w1]; [|done].
  unfold bind at 1.
  pose proof (unchanged_data_group_by_name vfeed (gdr_group gdr) w1) as Hg.
  destruct (AnchoreServiceFeed.group_by_name vfeed (gdr_group gdr) w1)
    as [[[g|]|e] w2]; [| |done].
  - unfold bind at 1. destruct (time_time w2) as [[t|e] w3]; [|done].
    unfold bind at 1. destruct (try_finally _ _ w3) as [[p|e] w4]; [|done].
    by intros [= <- _].
  - unfold bind, log, modify, ret. intros [= _ <-] _.
    simpl in Hr, Hg. rewrite <- Hr, <- Hg. done.
Qed.

Lemma generic_sync_group_failure_run flush_group gfeed gdr full_flush
    local_repo operation_id (w w' : World) (r : GroupSyncResult) :
  AnchoreServiceFeed._sync_group flush_group gfeed gdr full_flush local_repo
    operation_id w = (Ok r, w') ->
  gr_status r = "failure" ->
  data_of w' = data_of w.
Proof.
  unfold AnchoreServiceFeed._sync_group. cbv zeta.
  unfold bind at 1.
  destruct (metadata gfeed) as [k|].
  - unfold bind at 1.
    pose proof (unchanged_data_db_refresh (Some k) w) as Hr.
    destruct (db_refresh (Some k) w) as [[[]|e] w1]; [|done].
    pose proof (unchanged_data_group_by_name gfeed (gdr_group gdr) w1) as Hg.
    destruct (AnchoreServiceFeed.group_by_name gfeed (gdr_group gdr) w1)
      as [[[g|]|e] w2]; [| |done].
    + unfold bind at 1. destruct (time_time w2) as [[t|e] w3]; [|done].
      unfold bind at 1. destruct (try_finally _ _ w3) as [[p|e] w4]; [|done].
      by intros [= <- _].
    + unfold bind, log, modify, ret. intros [= _ <-] _.
      simpl in Hr, Hg. rewrite <- Hr, <- Hg. done.
  - unfold bind, log, modify, ret. by intros [= _ <-] _.
Qed.

(** X16.  A group sync that reports [failure] has changed nothing: the
    database, the data tables and image matches of the session, the calls of
    the processing function and the clock are as before.  It has reloaded
    the feed row and written a log line, and has not flushed, also when
    [full_flush] was asked for. *)
Theorem sync_group_failure_changes_nothing
    (fn : option VulnProcessingFn) (vfeed : Feed Vulnerability)
    (flush_group : FeedGroupMetadata -> option string -> M unit)
    (gfeed : Feed Entity) (gdr : GroupDownloadResult) (full_flush : bool)
    (local_repo : LocalFeedDataRepo) (operation_id : option string)
    (w : World) :
  let vrun := VulnerabilityFeed._sync_group fn vfeed gdr full_flush local_repo
                operation_id in
  let grun := AnchoreServiceFeed._sync_group flush_group gfeed gdr full_flush
                local_repo operation_id in
  (forall r, outcome vrun w = Ok r -> gr_status r = "failure" ->
     data_of (final vrun w) = data_of w) /\
  (forall r, outcome grun w = Ok r -> gr_status r = "failure" ->
     data_of (final grun w) = data_of w).
Proof.
  intros vrun grun. subst vrun grun. unfold outcome, final. split; intros r.
  - destruct (VulnerabilityFeed._sync_group _ _ _ _ _ _ w) as [[r'|e] w']
      eqn:Hrun; [|done].
    simpl. intros [= ->] Hs. by eapply vuln_sync_group_failure_run.
  - destruct (AnchoreServiceFeed._sync_group _ _ _ _ _ _ w) as [[r'|e] w']
      eqn:Hrun; [|done].
    simpl. intros [= ->] Hs. by eapply generic_sync_group_failure_run.
Qed.

Lemma sync_group_failure_changes_nothing_witness :
  exists r,
    outcome (VulnerabilityFeed._sync_group (Some ex_processing_fn) ex_feed
               (ex_gdr "ubuntu:20") true (ex_repo ["ubuntu:20"]) None)
      (ex_world []) = Ok r /\
    gr_status r = "failure" /\
    data_of (final (VulnerabilityFeed._sync_group (Some ex_processing_fn)
                      ex_feed (ex_gdr "ubuntu:20") true (ex_repo ["ubuntu:20"])
                      None) (ex_world []))
    = data_of (ex_world []).
Proof.
  eexists. split; [vm_compute; reflexivity|]. split; [reflexivity|].
  exact (proj1 (sync_group_failure_changes_nothing (Some ex_processing_fn)
                  ex_feed (AnchoreServiceFeed._flush_group ex_generic_feed)
                  ex_generic_feed (ex_gdr "ubuntu:20") true
                  (ex_repo ["ubuntu:20"]) None (ex_world []))
           _ eq_refl eq_refl).
Defined.

(** ** Flushing a group *)

Lemma unchanged_committed_vuln_flush_group self g op :
  unchanged committed (VulnerabilityFeed._flush_group self g op).
Proof. unfold VulnerabilityFeed._flush_group. unchanged_tac. Qed.

Lemma unchanged_committed_generic_flush_group {T : Type} (self : Feed T) g op :
  unchanged committed (AnchoreServiceFeed._flush_group self g op).
Proof. unfold AnchoreServiceFeed._flush_group. unchanged_tac. Qed.

(** The vulnerability flush stops at its call of the flush helper: the
    log line is all it leaves. *)
Lemma vuln_flush_group_run self g op (w : World) :
  exists msg l,
    VulnerabilityFeed._flush_group self g op w
    = (Raise (TypeError msg), set_logs l w).
Proof.
  unfold VulnerabilityFeed._flush_group, call_flush_helper_of_self, log.
  cbv zeta. unfold bind, modify, raise.
  destruct (__flush_helper_fn__ self) as [fn|]; simpl; by eexists _, _.
Qed.

Lemma keeps_unchanged {X A : Type} (proj : World -> X) (P : X -> Prop)
    (m : M A) :
  unchanged proj m -> keeps (fun w => P (proj w)) m.
Proof.
  intros H w Hw. specialize (H w).
  destruct (m w) as [[a|e] w']; simpl in *; by rewrite H.
Qed.

Lemma unchanged_committed_group_by_name {T : Type} (self : Feed T) name :
  unchanged committed (AnchoreServiceFeed.group_by_name self name).
Proof. unfold AnchoreServiceFeed.group_by_name. unchanged_tac. Qed.

#[local] Hint Resolve unchanged_committed_group_by_name : unchanged.

Lemma returns_vuln_flush_group self g op :
  returns (VulnerabilityFeed._flush_group self g op) (fun _ => False).
Proof.
  intros w a. unfold outcome.
  destruct (vuln_flush_group_run self g op w) as (msg & l & ->). done.
Qed.

Lemma spec_vuln_flush_group (P : Db -> Prop) self g op :
  spec (fun w => P (committed w)) (VulnerabilityFeed._flush_group self g op)
    (fun _ _ => False) (fun _ w => P (committed w)).
Proof.
  intros w Hw. by destruct (vuln_flush_group_run self g op w) as (msg & l & ->).
Qed.

(** X17.  The vulnerability flush never returns.  The flush helper is called
    through [self], which raises [TypeError] before a row is deleted and
    before any database call: session, database and the schedule of the
    database are as they were.  So a vulnerability group sync with
    [full_flush] never reports [success] and commits nothing: it returns
    the [failure] result of a group that is not found, or it raises. *)
Theorem vuln_full_flush_never_succeeds
    (fn : option VulnProcessingFn) (self : Feed Vulnerability)
    (g : FeedGroupMetadata) (gdr : GroupDownloadResult)
    (local_repo : LocalFeedDataRepo) (operation_id : option string)
    (w : World) :
  let flush := VulnerabilityFeed._flush_group self g operation_id in
  let run := VulnerabilityFeed._sync_group fn self gdr true local_repo
               operation_id in
  (exists msg, outcome flush w = Raise (TypeError msg)) /\
  session (final flush w) = session w /\
  committed (final flush w) = committed w /\
  faults (final flush w) = faults w /\
  committed (final run w) = committed w /\
  (forall r, outcome run w = Ok r -> gr_status r = "failure").
Proof.
  intros flush run. subst flush run. unfold outcome at 1, final at 1 2 3.
  destruct (vuln_flush_group_run self g operation_id w) as (msg & l & ->).
  split; [by exists msg|]. do 3 (split; [done|]). split.
  - pose (P := fun d : Db => d = committed w).
    assert (Hkeep : keeps (fun w' => P (committed w'))
                      (VulnerabilityFeed._sync_group fn self gdr true local_repo
                         operation_id)).
    { unfold VulnerabilityFeed._sync_group. cbv zeta.
      apply keeps_bind; [apply (keeps_unchanged committed P); unchanged_tac|].
      intros ?. apply keeps_bind;
        [apply (keeps_unchanged committed P); unchanged_tac|].
      intros [g0|]; [|apply (keeps_unchanged committed P); unchanged_tac].
      apply keeps_bind; [apply (keeps_unchanged committed P); unchanged_tac|].
      intros sync_started.
      apply keeps_bind; [|intros ?; apply (keeps_unchanged committed P);
                                    unchanged_tac].
      apply keeps_try_finally;
        [|apply (keeps_unchanged committed P); unchanged_tac].
      apply keeps_try_except;
        [|intros ?; apply (keeps_unchanged committed P); unchanged_tac].
      eapply spec_bind with (Q := fun _ _ => False); [|by intros ? ? []].
      eapply spec_bind; [apply (keeps_unchanged committed P); unchanged_tac|].
      intros ?; cbv beta.
      apply (spec_vuln_flush_group P). }
    specialize (Hkeep w eq_refl). unfold final, P in *.
    by destruct (VulnerabilityFeed._sync_group _ _ _ _ _ _ w) as [[r|e] w'].
  - intros r.
    assert (Hret : returns (VulnerabilityFeed._sync_group fn self gdr true
                              local_repo operation_id)
                     (fun r => gr_status r = "failure")).
    { unfold VulnerabilityFeed._sync_group. cbv zeta.
      apply returns_seq; intros _. apply returns_seq; intros [g0|].
      2:{ apply returns_seq; intros _. by apply returns_ret. }
      apply returns_seq; intros sync_started.
      eapply returns_bind with (Q := fun _ => False); [|by intros ? []].
      apply (returns_try_finally _ _ (fun _ => False)).
      apply returns_try_except.
      2:{ intros e. do 2 (apply returns_seq; intros ?). apply returns_raise. }
      eapply returns_bind with (Q := fun _ => False); [|by intros ? []].
      apply returns_seq; intros ?. apply returns_vuln_flush_group. }
    apply Hret.
Qed.

Lemma vuln_full_flush_never_succeeds_witness :
  outcome (VulnerabilityFeed._sync_group (Some ex_processing_fn) ex_feed
             (ex_gdr "debian:10") true (ex_repo ["debian:10"]) None)
    (ex_world [])
  = Raise (TypeError "got multiple values for argument 'db'") /\
  committed (final (VulnerabilityFeed._sync_group (Some ex_processing_fn)
                      ex_feed (ex_gdr "debian:10") true (ex_repo ["debian:10"])
                      None) (ex_world []))
  = ex_db.
Proof.
  split; [vm_compute; reflexivity|].
  exact (proj1 (proj2 (proj2 (proj2 (proj2
           (vuln_full_flush_never_succeeds (Some ex_processing_fn) ex_feed
              ex_group (ex_gdr "debian:10") (ex_repo ["debian:10"]) None
              (ex_world []))))))).
Defined.

(** X18.  The generic flush never commits, and it is not confined to the
    group it is called for: when it returns, the session holds no
    [GenericFeedDataRecord] row at all, of whatever feed and group, while
    the rows of the other tables and the vulnerabilities are as before. *)
Theorem generic_flush_group_clears_table {T : Type} (self : Feed T)
    (g : FeedGroupMetadata) (operation_id : option string) (w : World) :
  let run := AnchoreServiceFeed._flush_group self g operation_id in
  committed (final run w) = committed w /\
  (outcome run w = Ok tt ->
   (forall table namespace key,
      records (session (final run w)) !! (table, namespace, key)
      = if decide (table = GenericFeedDataRecord) then None
        else records (session w) !! (table, namespace, key)) /\
   vulnerabilities (session (final run w)) = vulnerabilities (session w)).
Proof.
  intros run. split.
  { apply (unchanged_committed_generic_flush_group self g operation_id w). }
  subst run.
  unfold outcome, final, AnchoreServiceFeed._flush_group, delete_records,
    call_flush_helper, log, modify_session.
  unfold bind, io, get_world, modify, raise, ret.
  assert (Hlook : forall table namespace key,
            filter (fun kv : string * string * string * string =>
                      kv.1.1.1 <> GenericFeedDataRecord) (records (session w))
              !! (table, namespace, key)
            = if decide (table = GenericFeedDataRecord) then None
              else records (session w) !! (table, namespace, key)).
  { intros table namespace key. rewrite map_lookup_filter.
    destruct (records (session w) !! (table, namespace, key)) as [p|]; simpl;
      [|by case_decide].
    unfold guard. repeat case_decide; simpl in *; done. }
  destruct (__flush_helper_fn__ self) as [fn|]; simpl.
  - destruct (fn (session w) (group_feed_name g) (group_name g))
      as [[[]|e] im]; simpl; [|done].
    destruct (faults w) as [|[e1|] f]; simpl; try done; intros _;
      (split; [exact Hlook|done]).
  - destruct (faults w) as [|[e1|] f]; simpl; try done; intros _;
      (split; [exact Hlook|done]).
Qed.

Lemma generic_flush_group_clears_table_witness :
  records
    (session
       (final (AnchoreServiceFeed._flush_group ex_generic_feed ex_group None)
          (ex_uncommitted ex_db_record)))
    !! (GenericFeedDataRecord, "other-group", "k") = None.
Proof.
  refine (proj1 (proj2 (generic_flush_group_clears_table ex_generic_feed
                          ex_group None (ex_uncommitted ex_db_record)) _)
            GenericFeedDataRecord "other-group" "k").
  vm_compute. reflexivity.
Defined.

Lemma lookup_filter_table (t : string) (m : gmap (string * string * string) string)
    table namespace key :
  filter (fun kv : string * string * string * string => kv.1.1.1 <> t) m
    !! (table, namespace, key)
  = if decide (table = t) then None else m !! (table, namespace, key).
Proof.
  rewrite map_lookup_filter.
  destruct (m !! (table, namespace, key)) as [p|]; simpl; [|by case_decide].
  unfold guard. repeat case_decide; simpl in *; done.
Qed.

Lemma lookup_filter_table_in (t ns : string)
    (m : gmap (string * string * string) string) table namespace key :
  filter (fun kv : string * string * string * string =>
            ~ (kv.1.1.1 = t /\ kv.1.1.2 = ns)) m
    !! (table, namespace, key)
  = if decide (table = t /\ namespace = ns) then None
    else m !! (table, namespace, key).
Proof.
  rewrite map_lookup_filter.
  destruct (m !! (table, namespace, key)) as [p|]; simpl; [|by case_decide].
  unfold guard. repeat case_decide; simpl in *; done.
Qed.

(** X19.  The packages flush, called as the group sync calls it (without a
    flush helper), never commits.  When it returns, the table of the group
    ([NpmMetadata] for [npm], [GemMetadata] for [gem]) is empty in the
    session and every other row is as before.  For any other group name it
    makes no database call at all: it returns, and leaves the session and
    the schedule of the database as they were. *)
Theorem packages_flush_group_by_name (self : Feed Entity)
    (g : FeedGroupMetadata) (operation_id : option string) (w : World) :
  let run := PackagesFeed._flush_group self g None operation_id in
  committed (final run w) = committed w /\
  (outcome run w = Ok tt ->
   forall table namespace key,
     records (session (final run w)) !! (table, namespace, key)
     = if decide ((group_name g = "npm" /\ table = NpmMetadata) \/
                  (group_name g = "gem" /\ table = GemMetadata))
       then None
       else records (session w) !! (table, namespace, key)) /\
  (group_name g <> "npm" -> group_name g <> "gem" ->
   outcome run w = Ok tt /\
   session (final run w) = session w /\
   faults (final run w) = faults w).
Proof.
  intros run. subst run.
  unfold outcome, final, PackagesFeed._flush_group, delete_records, db_flush,
    log, modify_session.
  cbv zeta. unfold bind, io, get_world, modify, raise, ret.
  destruct (decide (group_name g = "npm")) as [Hnpm|Hnpm];
    [|destruct (decide (group_name g = "gem")) as [Hgem|Hgem]].
  - destruct (faults w) as [|[e1|] [|[e2|] f]] eqn:Hf; simpl;
      rewrite ?Hf; simpl; (split; [done|]); (split; [|done]); try done;
      intros _ table namespace key; rewrite lookup_filter_table;
      do 2 case_decide; try done; exfalso; intuition congruence.
  - destruct (faults w) as [|[e1|] [|[e2|] f]] eqn:Hf; simpl;
      rewrite ?Hf; simpl; (split; [done|]); (split; [|done]); try done;
      intros _ table namespace key; rewrite lookup_filter_table;
      do 2 case_decide; try done; exfalso; intuition congruence.
  - simpl. split; [done|]. split; [|done].
    intros _ table namespace key. rewrite decide_False; [done|tauto].
Qed.

Lemma packages_flush_group_by_name_witness :
  outcome (PackagesFeed._flush_group ex_generic_feed ex_group None None)
    (ex_world [Some (DBError "connection lost")]) = Ok tt /\
  faults (final (PackagesFeed._flush_group ex_generic_feed ex_group None None)
            (ex_world [Some (DBError "connection lost")]))
  = [Some (DBError "connection lost")].
Proof.
  destruct (proj2 (proj2 (packages_flush_group_by_name ex_generic_feed ex_group
                            None (ex_world [Some (DBError "connection lost")])))
              ltac:(discriminate) ltac:(discriminate)) as (Hok & _ & Hf).
  split; [exact Hok|exact Hf].
Defined.

(** The session an NVD or VulnDB style flush of the tables [t1] and [t2]
    leaves behind when it returns. *)
Lemma flush_two_tables_records (t1 t2 ns : string)
    (m : gmap (string * string * string) string) table namespace key :
  filter (fun kv : string * string * string * string =>
            ~ (kv.1.1.1 = t2 /\ kv.1.1.2 = ns))
    (filter (fun kv : string * string * string * string =>
               ~ (kv.1.1.1 = t1 /\ kv.1.1.2 = ns)) m)
    !! (table, namespace, key)
  = if decide ((table = t1 \/ table = t2) /\ namespace = ns) then None
    else m !! (table, namespace, key).
Proof.
  rewrite !lookup_filter_table_in.
  destruct (decide (table = t2 /\ namespace = ns)) as [H2|H2];
    destruct (decide (table = t1 /\ namespace = ns)) as [H1|H1];
    destruct (decide ((table = t1 \/ table = t2) /\ namespace = ns)) as [H|H];
    try done; exfalso; tauto.
Qed.

(** X20.  The flushes of the NVD and the VulnDB feeds never commit, and
    they are confined to the group: when one returns, the rows of its two
    tables that carry the group's name as namespace are gone from the
    session, and every other row, of another namespace or another table, is
    as before, whatever the flush helper did. *)
Theorem namespace_flush_group_confined (self : Feed Entity)
    (g : FeedGroupMetadata) (flush_helper_fn : option FlushHelperFn)
    (operation_id : option string) (w : World) :
  let nvd := NvdV2Feed._flush_group self g flush_helper_fn operation_id in
  let vulndb := VulnDBFeed._flush_group self g flush_helper_fn operation_id in
  (committed (final nvd w) = committed w /\
   (outcome nvd w = Ok tt ->
    forall table namespace key,
      records (session (final nvd w)) !! (table, namespace, key)
      = if decide ((table = CpeV2Vulnerability \/ table = NvdV2Metadata) /\
                   namespace = group_name g)
        then None
        else records (session w) !! (table, namespace, key))) /\
  (committed (final vulndb w) = committed w /\
   (outcome vulndb w = Ok tt ->
    forall table namespace key,
      records (session (final vulndb w)) !! (table, namespace, key)
      = if decide ((table = VulnDBCpe \/ table = VulnDBMetadata) /\
                   namespace = group_name g)
        then None
        else records (session w) !! (table, namespace, key))).
Proof.
  intros nvd vulndb. subst nvd vulndb.
  unfold outcome, final, NvdV2Feed._flush_group, VulnDBFeed._flush_group,
    delete_records_in, db_flush, call_flush_helper, log, modify_session.
  cbv zeta. unfold bind, io, get_world, modify, raise, ret.
  destruct flush_helper_fn as [fn|]; simpl.
  - destruct (fn (session w) (group_feed_name g) (group_name g))
      as [[[]|e] im]; simpl; [|done].
    destruct (faults w) as [|[e1|] [|[e2|] [|[e3|] f]]] eqn:Hf; simpl;
      rewrite ?Hf; simpl; rewrite ?Hf; simpl;
      (split; (split; [done|])); try done;
      intros _ table namespace key; apply flush_two_tables_records.
  - destruct (faults w) as [|[e1|] [|[e2|] [|[e3|] f]]] eqn:Hf; simpl;
      rewrite ?Hf; simpl; rewrite ?Hf; simpl;
      (split; (split; [done|])); try done;
      intros _ table namespace key; apply flush_two_tables_records.
Qed.

Lemma namespace_flush_group_confined_witness :
  records
    (session (final (NvdV2Feed._flush_group ex_generic_feed ex_group None None)
                (ex_uncommitted ex_db_nvd)))
    !! (NvdV2Metadata, "debian:10", "CVE-1") = None /\
  records
    (session (final (NvdV2Feed._flush_group ex_generic_feed ex_group None None)
                (ex_uncommitted ex_db_nvd)))
    !! (NvdV2Metadata, "other", "CVE-2") = Some "b".
Proof.
  pose proof (proj2 (proj1 (namespace_flush_group_confined ex_generic_feed
                              ex_group None None (ex_uncommitted ex_db_nvd))))
    as H.
  cbv zeta in H.
  assert (Hok : outcome (NvdV2Feed._flush_group ex_generic_feed ex_group None
                           None) (ex_uncommitted ex_db_nvd) = Ok tt)
    by (vm_compute; reflexivity).
  split.
  - exact (H Hok NvdV2Metadata "debian:10" "CVE-1").
  - rewrite (H Hok NvdV2Metadata "other" "CVE-2"). vm_compute. reflexivity.
Defined.

(** ** Counting records *)

Lemma vuln_record_count_run self group_name (w : World) :
  session (final (VulnerabilityFeed.record_count self group_name) w)
    = committed w /\
  committed (final (VulnerabilityFeed.record_count self group_name) w)
    = committed w.
Proof.
  unfold final, VulnerabilityFeed.record_count, count_vulnerabilities,
    db_rollback, log.
  unfold bind, try_finally, try_except, io, get_world, modify, raise, ret.
  destruct (faults w) as [|[e|] f]; done.
Qed.

(** X21.  Every [record_count] ends the transaction of the session: when
    it is left, by a result or by an exception, the session holds what the
    database holds, and the database holds what it held.  Changes the
    thread had not committed are gone after a count. *)
Theorem record_count_rolls_back (vfeed : Feed Vulnerability)
    (self : Feed Entity) (group_name : string) (w : World) :
  Forall (fun w' => session w' = committed w /\ committed w' = committed w)
    [ final (VulnerabilityFeed.record_count vfeed group_name) w;
      final (PackagesFeed.record_count self group_name) w;
      final (NvdV2Feed.record_count self group_name) w;
      final (VulnDBFeed.record_count self group_name) w ].
Proof.
  unfold final, VulnerabilityFeed.record_count, PackagesFeed.record_count,
    NvdV2Feed.record_count, VulnDBFeed.record_count, count_vulnerabilities,
    count_records, count_records_in, db_rollback, log.
  unfold bind, try_finally, try_except, io, get_world, modify, raise, ret.
  repeat apply List.Forall_cons; try apply List.Forall_nil.
  - destruct (faults w) as [|[e|] f]; done.
  - repeat case_decide; destruct (faults w) as [|[e|] f]; done.
  - destruct (faults w) as [|[e|] f]; done.
  - destruct (faults w) as [|[e|] f]; done.
Qed.

Lemma size_filter_filter_out {K : Type} `{Countable K} {A : Type}
    (P : K * A -> Prop) `{!forall x, Decision (P x)} (m : gmap K A) :
  size (filter P (filter (fun kv => ~ P kv) m)) = 0%nat.
Proof.
  apply map_size_empty_iff, map_empty. intros i.
  apply map_lookup_filter_None. right. intros x Hx HP.
  apply map_lookup_filter_Some in Hx as [_ Hn]. by apply Hn.
Qed.

(** X22.  Flushing a group and then counting it, for the packages, the
    NVD and the VulnDB feed.  When the flush of a group is followed by
    [record_count] for that group and both return, the count is 0; and
    since the flush does not commit and the count rolls back, the session is
    back at what the database holds: the rows the flush deleted are there
    again. *)
Theorem flush_then_count (self : Feed Entity) (g : FeedGroupMetadata)
    (flush_helper_fn : option FlushHelperFn) (operation_id : option string)
    (w : World) :
  Forall
    (fun run : M nat =>
       forall n, outcome run w = Ok n ->
         n = 0%nat /\
         session (final run w) = committed w /\
         committed (final run w) = committed w)
    [ PackagesFeed._flush_group self g flush_helper_fn operation_id ;;;
      PackagesFeed.record_count self (group_name g);
      NvdV2Feed._flush_group self g flush_helper_fn operation_id ;;;
      NvdV2Feed.record_count self (group_name g);
      VulnDBFeed._flush_group self g flush_helper_fn operation_id ;;;
      VulnDBFeed.record_count self (group_name g) ].
Proof.
  repeat apply List.Forall_cons; try apply List.Forall_nil; intros n.
  - unfold outcome, final, PackagesFeed._flush_group, PackagesFeed.record_count,
      delete_records, count_records, db_flush, db_rollback, call_flush_helper,
      log, modify_session.
    cbv zeta.
    unfold bind, try_finally, try_except, io, get_world, modify, raise, ret.
    destruct flush_helper_fn as [fn|]; simpl;
      [destruct (fn (session w) (group_feed_name g) (group_name g))
         as [[[]|e] im]; simpl; [|done]|].
    all: destruct (decide (group_name g = "npm")) as [Hnpm|Hnpm];
      [|destruct (decide (group_name g = "gem")) as [Hgem|Hgem]]; simpl.
    all: destruct (faults w) as [|[e1|] [|[e2|] [|[e3|] f]]] eqn:Hf; simpl;
      rewrite ?Hf; simpl; rewrite ?Hf; simpl; try done.
    all: intros [= <-]; split; [|done].
    all: first
      [ done
      | apply (size_filter_filter_out
                 (fun kv : string * string * string * string =>
                    kv.1.1.1 = NpmMetadata))
      | apply (size_filter_filter_out
                 (fun kv : string * string * string * string =>
                    kv.1.1.1 = GemMetadata)) ].
  - unfold outcome, final, NvdV2Feed._flush_group, NvdV2Feed.record_count,
      delete_records_in, count_records_in, db_flush, db_rollback,
      call_flush_helper, log, modify_session.
    cbv zeta.
    unfold bind, try_finally, try_except, io, get_world, modify, raise, ret.
    destruct flush_helper_fn as [fn|]; simpl;
      [destruct (fn (session w) (group_feed_name g) (group_name g))
         as [[[]|e] im]; simpl; [|done]|].
    all: destruct (faults w) as [|[e1|] [|[e2|] [|[e3|] [|[e4|] f]]]] eqn:Hf;
      simpl; rewrite ?Hf; simpl; rewrite ?Hf; simpl; rewrite ?Hf; simpl;
      try done.
    all: intros [= <-]; split; [|done].
    all: apply (size_filter_filter_out
                  (fun kv : string * string * string * string =>
                     kv.1.1.1 = NvdV2Metadata /\ kv.1.1.2 = group_name g)).
  - unfold outcome, final, VulnDBFeed._flush_group, VulnDBFeed.record_count,
      delete_records_in, count_records_in, db_flush, db_rollback,
      call_flush_helper, log, modify_session.
    cbv zeta.
    unfold bind, try_finally, try_except, io, get_world, modify, raise, ret.
    destruct flush_helper_fn as [fn|]; simpl;
      [destruct (fn (session w) (group_feed_name g) (group_name g))
         as [[[]|e] im]; simpl; [|done]|].
    all: destruct (faults w) as [|[e1|] [|[e2|] [|[e3|] [|[e4|] f]]]] eqn:Hf;
      simpl; rewrite ?Hf; simpl; rewrite ?Hf; simpl; rewrite ?Hf; simpl;
      try done.
    all: intros [= <-]; split; [|done].
    all: apply (size_filter_filter_out
                  (fun kv : string * string * string * string =>
                     kv.1.1.1 = VulnDBMetadata /\ kv.1.1.2 = group_name g)).
Qed.

Lemma flush_then_count_witness :
  outcome (NvdV2Feed._flush_group ex_generic_feed ex_group None None ;;;
           NvdV2Feed.record_count ex_generic_feed "debian:10")
    (ex_uncommitted ex_db_nvd) = Ok 0%nat /\
  session (final (NvdV2Feed._flush_group ex_generic_feed ex_group None None ;;;
                  NvdV2Feed.record_count ex_generic_feed "debian:10")
             (ex_uncommitted ex_db_nvd)) = ex_db.
Proof.
  assert (Hok : outcome (NvdV2Feed._flush_group ex_generic_feed ex_group None
                           None ;;;
                         NvdV2Feed.record_count ex_generic_feed "debian:10")
                  (ex_uncommitted ex_db_nvd) = Ok 0%nat)
    by (vm_compute; reflexivity).
  split; [exact Hok|].
  pose proof (flush_then_count ex_generic_feed ex_group None None
                (ex_uncommitted ex_db_nvd)) as H.
  apply List.Forall_cons_iff in H as [_ H].
  apply List.Forall_cons_iff in H as [H _].
  exact (proj1 (proj2 (H 0%nat Hok))).
Defined.

(** X23.  For a group other than [npm] and [gem], the record count of the
    packages feed is 0 and no query is made: the call returns even when
    the database is failing, and consumes nothing of its schedule. *)
Theorem packages_record_count_other_group (self : Feed Entity)
    (group_name : string) (w : World) :
  let run := PackagesFeed.record_count self group_name in
  group_name <> "npm" -> group_name <> "gem" ->
  outcome run w = Ok 0%nat /\
  faults (final run w) = faults w /\
  logs (final run w) = logs w.
Proof.
  intros run Hnpm Hgem. subst run.
  unfold outcome, final, PackagesFeed.record_count, db_rollback.
  unfold bind, try_finally, try_except, modify, ret.
  rewrite !decide_False by done. done.
Qed.

Lemma packages_record_count_other_group_witness :
  outcome (PackagesFeed.record_count ex_generic_feed "debian:10")
    (ex_world [Some (DBError "connection lost")]) = Ok 0%nat.
Proof.
  exact (proj1 (packages_record_count_other_group ex_generic_feed "debian:10"
                  (ex_world [Some (DBError "connection lost")])
                  ltac:(discriminate) ltac:(discriminate))).
Defined.

(** ** Merging a vulnerability *)

(** X24.  When [update_vulnerability] returns, the session holds the new
    record under its namespace and id, whether or not an update of the
    image matches was needed and whatever the processing function did;
    nothing has been committed, and the flat records are as before. *)
Theorem update_vulnerability_merges (record : Vulnerability)
    (fn : option VulnProcessingFn) (w : World) (ids : list string) :
  let run := VulnerabilityFeed.update_vulnerability record fn in
  outcome run w = Ok ids ->
  vulnerabilities (session (final run w))
    !! (vuln_namespace_name record, vuln_id record) = Some record /\
  committed (final run w) = committed w /\
  records (session (final run w)) = records (session w).
Proof.
  intros run. subst run.
  unfold VulnerabilityFeed.update_vulnerability, outcome, final,
    query_vulnerability, db_merge, call_processing_fn, log, modify_session.
  unfold try_except, bind, io, get_world, modify, raise, ret.
  destruct (faults w) as [|[e1|] [|[e2|] f]] eqn:Hf; simpl; try done.
  all: rewrite ?Hf; simpl.
  all: try (destruct (vulnerabilities (session w) !! _) as [ex|] eqn:Hex; simpl).
  all: try match goal with
       | |- context [VulnerabilityFeed._are_match_equivalent (Some ?a) (Some ?b) ?W] =>
           destruct (are_match_equivalent_run a b W) as [l Hl]; rewrite Hl;
           destruct (match_equivalent_spec a b); simpl
       end.
  all: rewrite ?Hf; simpl; try done.
  all: destruct fn as [fn|]; simpl.
  all: try (destruct (fn _ _) as [[ids'|e] im] eqn:Hfn; simpl).
  all: try done.
  all: intros _; by rewrite lookup_insert_eq.
Qed.

Lemma update_vulnerability_merges_witness :
  vulnerabilities
    (session (final (VulnerabilityFeed.update_vulnerability (ex_vuln "CVE-9")
                       (Some ex_processing_fn)) (ex_world [])))
    !! ("debian:10", "CVE-9") = Some (ex_vuln "CVE-9").
Proof.
  refine (proj1 (update_vulnerability_merges (ex_vuln "CVE-9")
                   (Some ex_processing_fn) (ex_world []) ["image-1"] _)).
  vm_compute. reflexivity.
Defined.

(** ** What a group sync leaves in the database *)

Lemma stream_rows_in_insert mapper all processed m v :
  (exists raw', raw' ∈ all /\ mapper raw' = Ok v) ->
  stream_rows_in mapper all processed m ->
  stream_rows_in mapper all processed (<[vuln_key v := v]> m).
Proof.
  intros Hv H raw Hraw.
  destruct (H raw Hraw) as (v0 & v' & Hm & Hl & Hk & HS).
  destruct (decide (vuln_key v0 = vuln_key v)) as [Heq|Hne].
  - exists v0, v. by rewrite Heq, lookup_insert_eq.
  - exists v0, v'. by rewrite lookup_insert_ne.
Qed.

Lemma stream_rows_in_snoc mapper all processed m raw v :
  mapper raw = Ok v -> raw ∈ all ->
  stream_rows_in mapper all processed m ->
  stream_rows_in mapper all (processed ++ [raw]) (<[vuln_key v := v]> m).
Proof.
  intros Hm Hin H raw0 [Hin0| ->%list_elem_of_singleton]%elem_of_app.
  - apply (stream_rows_in_insert mapper all processed m v); [by exists raw|done|done].
  - exists v, v. rewrite lookup_insert_eq. do 3 (split; [done|]).
    eexists. split; eassumption.
Qed.

Lemma spec_trivial {A : Type} (P : World -> Prop) (m : M A) :
  spec P m (fun _ _ => True) any_exn.
Proof. intros w _. by destruct (m w) as [[a|e] w']. Qed.

Lemma spec_unchanged {X A : Type} (proj : World -> X) (P : X -> Prop) (m : M A) :
  unchanged proj m ->
  spec (fun w => P (proj w)) m (fun _ w => P (proj w)) any_exn.
Proof.
  intros H w Hw. specialize (H w).
  destruct (m w) as [[a|e] w']; simpl in *; [by rewrite H|done].
Qed.

Lemma spec_lift_result {A : Type} (P : World -> Prop) (r : Res A) :
  spec P (fun w => (r, w)) (fun a w => r = Ok a /\ P w) any_exn.
Proof. intros w Hw. by destruct r. Qed.

Lemma spec_raises {A B : Type} (P : World -> Prop) (m : M A) (e : exn)
    (Q : B -> World -> Prop) :
  spec P (bind m (fun _ => raise e)) Q any_exn.
Proof. intros w _. unfold bind, raise. by destruct (m w) as [[a|e'] w']. Qed.

Lemma spec_merge_vulnerability (P P' : gmap (string * string) Vulnerability -> Prop)
    (v : Vulnerability) :
  (forall m, P m -> P' (<[vuln_key v := v]> m)) ->
  spec (fun w => P (vulnerabilities (session w)))
    (db_merge (EVulnerability v))
    (fun _ w => P' (vulnerabilities (session w))) any_exn.
Proof.
  intros H w Hw. unfold db_merge, modify_session, bind, io, modify, ret.
  destruct (faults w) as [|[e|] f]; simpl; try done; by apply H.
Qed.

Lemma spec_commit_vulnerabilities
    (P : gmap (string * string) Vulnerability -> Prop) :
  spec (fun w => P (vulnerabilities (session w))) db_commit
    (fun _ w => P (vulnerabilities (committed w))) any_exn.
Proof.
  intros w Hw. unfold db_commit, bind, io, modify.
  destruct (faults w) as [|[e|] f]; simpl; done.
Qed.

Lemma unchanged_vulns_getattr {A : Type} obj attr (field : Vulnerability -> A) :
  unchanged (fun w => vulnerabilities (session w))
    (VulnerabilityFeed.getattr obj attr field).
Proof. unfold VulnerabilityFeed.getattr. unchanged_tac. Qed.

Lemma unchanged_vulns_group_by_name {T : Type} (self : Feed T) name :
  unchanged (fun w => vulnerabilities (session w))
    (AnchoreServiceFeed.group_by_name self name).
Proof. unfold AnchoreServiceFeed.group_by_name. unchanged_tac. Qed.

#[local] Hint Resolve unchanged_vulns_getattr unchanged_vulns_group_by_name
  : unchanged.

Lemma unchanged_vulns_are_match_equivalent a b :
  unchanged (fun w => vulnerabilities (session w))
    (VulnerabilityFeed._are_match_equivalent a b).
Proof. unfold VulnerabilityFeed._are_match_equivalent. unchanged_tac. Qed.

#[local] Hint Resolve unchanged_vulns_are_match_equivalent : unchanged.

Lemma spec_update_vulnerability_rows mapper all processed v fn :
  (exists raw', raw' ∈ all /\ mapper raw' = Ok v) ->
  spec (fun w => stream_rows_in mapper all processed (vulnerabilities (session w)))
    (VulnerabilityFeed.update_vulnerability v fn)
    (fun _ w => stream_rows_in mapper all processed (vulnerabilities (session w)))
    any_exn.
Proof.
  intros Hv. unfold VulnerabilityFeed.update_vulnerability.
  eapply spec_try_except with (E := any_exn).
  2:{ intros e. apply spec_raises. }
  eapply spec_bind.
  { apply (spec_unchanged (fun w => vulnerabilities (session w))
             (stream_rows_in mapper all processed)). unchanged_tac. }
  intros existing. cbv beta.
  eapply spec_bind.
  { apply (spec_unchanged (fun w => vulnerabilities (session w))
             (stream_rows_in mapper all processed)). unchanged_tac. }
  intros needs_update. cbv beta.
  eapply spec_bind.
  { apply (spec_merge_vulnerability (stream_rows_in mapper all processed)
             (stream_rows_in mapper all processed)).
    intros m. by apply stream_rows_in_insert. }
  intros ?. cbv beta.
  apply (spec_unchanged (fun w => vulnerabilities (session w))
           (stream_rows_in mapper all processed)). unchanged_tac.
Qed.

Lemma spec_update_records_rows fn mapper all ctx total items processed imgs n c :
  (forall raw, raw ∈ items -> raw ∈ all) ->
  spec (fun w => stream_rows_in mapper all processed (vulnerabilities (session w)))
    (VulnerabilityFeed.update_records fn mapper ctx total items imgs n c)
    (fun _ w => stream_rows_in mapper all (processed ++ items)
                  (vulnerabilities (session w)))
    any_exn.
Proof.
  revert processed imgs n c.
  induction items as [|record rest IH]; intros processed imgs n c Hall.
  - simpl. rewrite app_nil_r. by apply spec_ret.
  - simpl VulnerabilityFeed.update_records.
    eapply spec_bind; [apply spec_lift_result|].
    intros mapped. cbv beta. apply spec_pure_pre. intros Hmapped.
    assert (Hin : record ∈ all) by (apply Hall, list_elem_of_here).
    eapply spec_bind.
    { apply spec_update_vulnerability_rows. by exists record. }
    intros ids. cbv beta.
    eapply spec_bind.
    { apply (spec_merge_vulnerability (stream_rows_in mapper all processed)
               (stream_rows_in mapper all (processed ++ [record]))).
      intros m. by apply stream_rows_in_snoc. }
    intros ?. cbv beta.
    eapply spec_bind.
    { apply (spec_unchanged (fun w => vulnerabilities (session w))
               (stream_rows_in mapper all (processed ++ [record]))).
      unchanged_tac. }
    intros ?. cbv beta.
    eapply spec_bind.
    { apply (spec_unchanged (fun w => vulnerabilities (session w))
               (stream_rows_in mapper all (processed ++ [record]))).
      unchanged_tac. }
    intros count. cbv beta.
    eapply spec_conseq; [apply (IH (processed ++ [record])%list)|..].
    + intros raw Hraw. apply Hall. by apply list_elem_of_further.
    + done.
    + intros ? w. by rewrite <- app_assoc.
    + done.
Qed.

Lemma spec_group_by_name_found {T : Type} (P : World -> Prop) (self : Feed T)
    name :
  spec P (AnchoreServiceFeed.group_by_name self name)
    (fun found _ => forall g, found = Some g -> group_name g = name) any_exn.
Proof.
  intros w _. unfold AnchoreServiceFeed.group_by_name, bind, get_world.
  cbn beta iota.
  assert (Hhead : forall g,
            head (filter (fun x => group_name x = name)
                    (metadata_groups (metadata self) w)) = Some g ->
            group_name g = name).
  { intros g Hg%head_Some_elem_of. by apply list_elem_of_filter in Hg as [? _]. }
  destruct (1 <? _)%nat; exact Hhead.
Qed.

Lemma spec_load_mapper {T : Type} (P : World -> Prop) (self : Feed T) g :
  spec P (AnchoreServiceFeed._load_mapper self g)
    (fun mapper w =>
       (forall w', outcome (AnchoreServiceFeed._load_mapper self g) w'
                   = Ok mapper) /\ P w)
    any_exn.
Proof.
  intros w Hw. unfold outcome, AnchoreServiceFeed._load_mapper.
  destruct (__group_data_mappers__ self) as [|[new|m]|get]; simpl; try done.
  destruct (get (group_name g)) as [[new|m]|]; simpl; done.
Qed.

Lemma load_mapper_by_name {T : Type} (self : Feed T) g g' (w : World) :
  group_name g' = group_name g ->
  outcome (AnchoreServiceFeed._load_mapper self g') w
  = outcome (AnchoreServiceFeed._load_mapper self g) w.
Proof.
  intros Hname. unfold outcome, AnchoreServiceFeed._load_mapper.
  rewrite Hname. by destruct (match __group_data_mappers__ self with
                              | NoMappers => _ | SingleMapper _ => _
                              | MappersWithGet _ => _ end) as [[new|m]|].
Qed.

Lemma spec_pure {A : Type} (phi : Prop) (m : M A) Q E :
  (phi -> spec (fun _ => True) m Q E) -> spec (fun _ => phi) m Q E.
Proof. intros H w Hphi. by apply H. Qed.

Lemma spec_any_exn {A : Type} (P : World -> Prop) (m : M A) (e : exn) :
  spec P m (fun _ => any_exn e) any_exn.
Proof. intros w _. by destruct (m w) as [[a|e'] w']. Qed.

(** The group sync of the vulnerability feed, by what it leaves in the
    database when it reports [success]. *)
Lemma vuln_sync_group_rows fn (self : Feed Vulnerability) gdr full_flush
    local_repo operation_id :
  let items := stream_items (read local_repo (gdr_feed gdr) (gdr_group gdr) 0) in
  spec (fun _ => True)
    (VulnerabilityFeed._sync_group fn self gdr full_flush local_repo
       operation_id)
    (fun r w =>
       gr_status r = "success" ->
       exists mapper g,
         group_name g = gdr_group gdr /\
         (forall w', outcome (AnchoreServiceFeed._load_mapper self g) w'
                     = Ok mapper) /\
         stream_rows_in mapper items items (vulnerabilities (committed w)))
    any_exn.
Proof.
  intros items. unfold VulnerabilityFeed._sync_group. cbv zeta. fold items.
  eapply spec_bind; [apply spec_trivial|]. intros ?; cbv beta.
  eapply spec_bind; [apply spec_group_by_name_found|].
  intros [g|]; cbv beta.
  2:{ eapply spec_bind; [apply spec_trivial|]. intros ?; cbv beta.
      apply spec_ret. by intros w _ ?. }
  apply spec_pure. intros Hname. specialize (Hname g eq_refl).
  eapply spec_bind; [apply spec_trivial|]. intros sync_started; cbv beta.
  set (post := fun m : gmap (string * string) Vulnerability =>
                 exists mapper,
                   (forall w', outcome (AnchoreServiceFeed._load_mapper self g) w'
                               = Ok mapper) /\
                   stream_rows_in mapper items items m).
  eapply spec_bind with
    (Q := fun _ w => post (vulnerabilities (committed w))).
  2:{ intros p. apply spec_ret. intros w (mapper & Hload & Hrows) _.
      by exists mapper, g. }
  eapply spec_try_finally with
    (Q := fun _ w => post (vulnerabilities (committed w))) (E := any_exn).
  3:{ intros e. apply spec_any_exn. }
  2:{ intros n.
      apply (spec_unchanged (fun w => vulnerabilities (committed w)) post).
      unchanged_tac. }
  eapply spec_try_except with (E := any_exn).
  2:{ intros e. eapply spec_bind; [apply spec_trivial|]. intros ?; cbv beta.
      apply spec_raises. }
  eapply spec_bind; [apply spec_trivial|]. intros ?; cbv beta.
  eapply spec_bind; [apply spec_load_mapper|].
  intros mapper; cbv beta. apply spec_pure_pre. intros Hload.
  eapply spec_bind.
  { eapply spec_conseq;
      [apply (spec_update_records_rows fn mapper items _ _ items [])|..].
    - done.
    - intros w _ raw Hraw. by apply elem_of_nil in Hraw.
    - intros st w Hw. exact Hw.
    - done. }
  intros st; cbv beta. simpl app.
  do 5 (eapply spec_bind;
        [apply (spec_unchanged (fun w => vulnerabilities (session w))
                  (stream_rows_in mapper items items)); unchanged_tac
        |intros ?; cbv beta]).
  eapply spec_bind; [apply spec_commit_vulnerabilities|]. intros ?; cbv beta.
  apply spec_ret. intros w Hw. by exists mapper.
Qed.

(** X25.  A group sync of the vulnerability feed that reports [success]
    has put the stream into the database: for the mapper that
    [_load_mapper] gives for the group, every record of the stream is
    mapped to a row, and under the key of that row the database holds a row
    with this key that the mapper made from a record of the stream. *)
Theorem sync_group_persists_records
    (fn : option VulnProcessingFn) (self : Feed Vulnerability)
    (gdr : GroupDownloadResult) (full_flush : bool)
    (local_repo : LocalFeedDataRepo) (operation_id : option string)
    (w : World) (r : GroupSyncResult) :
  let run := VulnerabilityFeed._sync_group fn self gdr full_flush local_repo
               operation_id in
  let items := stream_items (read local_repo (gdr_feed gdr) (gdr_group gdr) 0) in
  outcome run w = Ok r ->
  gr_status r = "success" ->
  exists mapper,
    (forall g w', group_name g = gdr_group gdr ->
       outcome (AnchoreServiceFeed._load_mapper self g) w' = Ok mapper) /\
    stream_rows_in mapper items items
      (vulnerabilities (committed (final run w))).
Proof.
  intros run items Hok Hstatus.
  pose proof (vuln_sync_group_rows fn self gdr full_flush local_repo
                operation_id w I) as Hspec.
  fold run in Hspec. unfold outcome, final in *.
  destruct (run w) as [[r'|e] w']; [|done]. simpl in *.
  injection Hok as ->.
  destruct (Hspec Hstatus) as (mapper & g & Hname & Hload & Hrows).
  exists mapper. split; [|exact Hrows].
  intros g' w'' Hg'. rewrite <- (Hload w'').
  apply load_mapper_by_name. congruence.
Qed.

Lemma sync_group_persists_records_witness :
  exists v',
    vulnerabilities
      (committed
         (final (VulnerabilityFeed._sync_group (Some ex_processing_fn) ex_feed
                   (ex_gdr "debian:10") false (ex_repo ["debian:10"]) None)
            (ex_world [])))
      !! vuln_key (ex_vuln "CVE-2") = Some v' /\
    vuln_key v' = vuln_key (ex_vuln "CVE-2").
Proof.
  destruct (sync_group_persists_records (Some ex_processing_fn) ex_feed
              (ex_gdr "debian:10") false (ex_repo ["debian:10"]) None
              (ex_world []) _ eq_refl eq_refl)
    as (mapper & Hload & Hrows).
  specialize (Hload ex_group (ex_world []) eq_refl).
  vm_compute in Hload. injection Hload as <-.
  destruct (Hrows "CVE-2") as (v & v' & Hv & Hlook & Hkey & _).
  { apply list_elem_of_further, list_elem_of_here. }
  vm_compute in Hv. injection Hv as <-.
  exists v'. split; [exact Hlook|exact Hkey].
Defined.
